(** * The sales pipeline of the Delta Live Tables demo notebooks

    A shallow embedding of the table definitions of
    [delta-live-tables-demo/Delta Live Tables (Python).py]:
    the silver expectation, the daily gold roll-up and the star schema
    (four dimensions and the fact table).

    Tables are bags of rows, kept as lists; a nullable column is an
    [option]; [GROUP BY] puts NULLs in one group, whereas the [=] of a
    join condition never holds on a NULL.  The [uuid()] calls of the
    dimension queries draw from a supply of identifiers that is
    threaded through a run as a counter. *)

From Stdlib Require Import ZArith QArith Floats Uint63.
From stdpp Require Import base decidable option list numbers strings.

Local Open Scope Z_scope.

(** ** Columns and rows *)

Record Date := mkDate { d_year : Z; d_month : Z; d_day : Z }.

(** A timestamp is a calendar date and the seconds elapsed in that day. *)
Record Timestamp := mkTimestamp { ts_date : Date; ts_seconds : Z }.

#[global] Instance Date_eq_dec : EqDecision Date.
Proof. solve_decision. Defined.

#[global] Instance Timestamp_eq_dec : EqDecision Timestamp.
Proof. solve_decision. Defined.

(** The columns of the sales files that the queries of the notebook
    refer to.  A numeric column holds the number written in the file as
    an integer: a whole number as it is, an amount with decimals in minor
    units (cents, for two decimals).  The bronze table declares no
    schema, so how SUM adds a column depends on the type the column gets:
    [sql_sum] is the exact sum, [sum_double] the sum of a DOUBLE
    column. *)
Record SalesRow := mkSalesRow {
  transaction_id   : option string;
  product_id       : option string;
  product_name     : option string;
  customer_name    : option string;
  email            : option string;
  delivery_address : option string;
  city             : option string;
  state            : option string;
  zip_code         : option string;
  category         : option string;
  quantity         : option Z;
  price            : option Z;
  discount         : option Z;
  total_amount     : option Z;
  payment_method   : option string;
  transaction_date : option Timestamp
}.

#[global] Instance SalesRow_eq_dec : EqDecision SalesRow.
Proof. solve_decision. Defined.

(** ** SQL scalar functions and predicates *)

(** [x IS NOT NULL] *)
Definition is_not_null {A} (x : option A) : bool :=
  match x with Some _ => true | None => false end.

(** [a = b] inside [ON] or [WHERE]: unknown on a NULL, hence not kept. *)
Definition sql_eq {A} `{EqDecision A} (a b : option A) : bool :=
  match a, b with
  | Some x, Some y => bool_decide (x = y)
  | _, _ => false
  end.

(** [date(ts)], [year(ts)], [month(ts)], [day(ts)] *)
Definition date (ts : option Timestamp) : option Date := ts_date <$> ts.
Definition year (ts : option Timestamp) : option Z := (d_year ∘ ts_date) <$> ts.
Definition month (ts : option Timestamp) : option Z := (d_month ∘ ts_date) <$> ts.
Definition day (ts : option Timestamp) : option Z := (d_day ∘ ts_date) <$> ts.

(** ** Silver layer *)

(** The expectation ["transaction_id IS NOT NULL AND product_id IS NOT NULL"]. *)
Definition valid_transaction (r : SalesRow) : bool :=
  is_not_null (transaction_id r) && is_not_null (product_id r).

(** [@dlt.expect_or_drop]: the rows that violate the expectation are
    dropped, the others pass through as read from the bronze table. *)
Definition sales_silver (sales_bronze : list SalesRow) : list SalesRow :=
  filter (λ r, valid_transaction r) sales_bronze.

(** ** Grouping and aggregates *)

Section GroupBy.
Context {A K : Type} `{EqDecision K}.

(** The rows of one group. *)
Definition group_rows (key : A → K) (k : K) (rows : list A) : list A :=
  filter (λ r, key r = k) rows.

(** [GROUP BY key]: one group per distinct value of the key (NULLs
    compare equal here), each with the rows that carry it. *)
Definition group_by (key : A → K) (rows : list A) : list (K * list A) :=
  (λ k, (k, group_rows key k rows)) <$> remove_dups (key <$> rows).
End GroupBy.

(** Aggregates skip NULLs. *)
Definition non_null {A} (col : list (option A)) : list A := omap id col.

Definition total (xs : list Z) : Z := foldr Z.add 0 xs.

(** Whole numbers whose absolute values add up to at most [2 ^ 53]: their
    sums, in any order and grouping, are exact in a BIGINT column and in
    a DOUBLE column alike. *)
Definition adds_exactly (col : list (option Z)) : Prop :=
  total (Z.abs <$> non_null col) ≤ 2 ^ 53.

(** [SUM(col)], exact: NULL when no value is left after skipping NULLs. *)
Definition sql_sum (col : list (option Z)) : option Z :=
  match non_null col with
  | [] => None
  | xs => Some (total xs)
  end.

(** [COUNT(DISTINCT col)] *)
Definition count_distinct {A} `{EqDecision A} (col : list (option A)) : Z :=
  Z.of_nat (length (remove_dups (non_null col))).

(** [AVG(col)], exact *)
Definition sql_avg (col : list (option Z)) : option Q :=
  match non_null col with
  | [] => None
  | xs => Some (total xs # Pos.of_nat (length xs))
  end.

(** The outcome of [a / n] for an integer count [n]. *)
Inductive Quotient :=
  | QuotientOf (q : Q)
  | QuotientNull
  | DivideByZero.

Definition sql_div (a : option Z) (n : Z) : Quotient :=
  if bool_decide (n = 0) then DivideByZero
  else match a with
       | Some x => QuotientOf (x # Z.to_pos n)
       | None => QuotientNull
       end.

(** ** Gold layer: daily_sales_gold *)

Module DailySales.
Record t := mk {
  sale_date                 : option Date;
  category                  : option string;
  total_transactions        : Z;
  unique_customers          : Z;
  total_items_sold          : option Z;
  total_revenue             : option Z;
  total_discounts           : option Z;
  average_price             : option Q;
  average_transaction_value : Quotient
}.
End DailySales.

Definition daily_key (r : SalesRow) : option Date * option string :=
  (date (transaction_date r), category r).

Definition daily_sales_row (g : (option Date * option string) * list SalesRow)
  : DailySales.t :=
  let rows := g.2 in
  {| DailySales.sale_date := g.1.1;
     DailySales.category := g.1.2;
     DailySales.total_transactions := count_distinct (transaction_id <$> rows);
     DailySales.unique_customers := count_distinct (customer_name <$> rows);
     DailySales.total_items_sold := sql_sum (quantity <$> rows);
     DailySales.total_revenue := sql_sum (total_amount <$> rows);
     DailySales.total_discounts := sql_sum (discount <$> rows);
     DailySales.average_price := sql_avg (price <$> rows);
     DailySales.average_transaction_value :=
       sql_div (sql_sum (total_amount <$> rows))
               (count_distinct (transaction_id <$> rows)) |}.

Definition daily_sales_gold (sales_silver : list SalesRow) : list DailySales.t :=
  daily_sales_row <$> group_by daily_key sales_silver.

(** ** Gold layer: customer_metrics_gold *)

(** Timestamps compare by date, then by the time of the day. *)
Definition Timestamp_compare (a b : Timestamp) : comparison :=
  match d_year (ts_date a) ?= d_year (ts_date b) with
  | Eq =>
      match d_month (ts_date a) ?= d_month (ts_date b) with
      | Eq =>
          match d_day (ts_date a) ?= d_day (ts_date b) with
          | Eq => ts_seconds a ?= ts_seconds b
          | c => c
          end
      | c => c
      end
  | c => c
  end.

Definition Timestamp_leb (a b : Timestamp) : bool :=
  match Timestamp_compare a b with Gt => false | _ => true end.

Definition later (a b : Timestamp) : Timestamp :=
  if Timestamp_leb a b then b else a.

Definition earlier (a b : Timestamp) : Timestamp :=
  if Timestamp_leb a b then a else b.

(** [MAX(col)] and [MIN(col)]: NULL when every value is NULL. *)
Definition sql_max (col : list (option Timestamp)) : option Timestamp :=
  match non_null col with
  | [] => None
  | x :: xs => Some (foldr later x xs)
  end.

Definition sql_min (col : list (option Timestamp)) : option Timestamp :=
  match non_null col with
  | [] => None
  | x :: xs => Some (foldr earlier x xs)
  end.

Module CustomerMetrics.
Record t := mk {
  customer_name            : option string;
  total_purchases          : Z;
  total_spent              : option Z;
  average_purchase_value   : option Q;
  unique_categories_bought : Z;
  last_purchase_date       : option Timestamp;
  first_purchase_date      : option Timestamp;
  total_items_bought       : option Z;
  total_savings            : option Z
}.
End CustomerMetrics.

Definition customer_metrics_row (g : option string * list SalesRow)
  : CustomerMetrics.t :=
  let rows := g.2 in
  {| CustomerMetrics.customer_name := g.1;
     CustomerMetrics.total_purchases :=
       count_distinct (transaction_id <$> rows);
     CustomerMetrics.total_spent := sql_sum (total_amount <$> rows);
     CustomerMetrics.average_purchase_value :=
       sql_avg (total_amount <$> rows);
     CustomerMetrics.unique_categories_bought :=
       count_distinct (category <$> rows);
     CustomerMetrics.last_purchase_date :=
       sql_max (transaction_date <$> rows);
     CustomerMetrics.first_purchase_date :=
       sql_min (transaction_date <$> rows);
     CustomerMetrics.total_items_bought := sql_sum (quantity <$> rows);
     CustomerMetrics.total_savings := sql_sum (discount <$> rows) |}.

Definition customer_metrics_gold (sales_silver : list SalesRow)
  : list CustomerMetrics.t :=
  customer_metrics_row <$> group_by customer_name sales_silver.

(** ** Amounts typed DOUBLE *)

(** Where the files hold amounts with decimals, the column is typed
    DOUBLE (or is a string that SUM casts to DOUBLE): a row holds the
    double nearest to its amount, and SUM adds doubles, rounding at each
    step, in the order of the rows. *)

(** The double of a whole number (exact below [2 ^ 53]). *)
Definition double_of_Z (z : Z) : float :=
  if z <? 0 then PrimFloat.opp (PrimFloat.of_uint63 (Uint63.of_Z (- z)))
  else PrimFloat.of_uint63 (Uint63.of_Z z).

(** The double nearest to the amount of [minor_units] with [scale]
    decimals: 1999 with 2 decimals is 19.99. *)
Definition as_double (scale minor_units : Z) : float :=
  PrimFloat.div (double_of_Z minor_units) (double_of_Z (10 ^ scale)).

(** [SUM(col)] over a DOUBLE column. *)
Definition sum_double (col : list (option float)) : option float :=
  match non_null col with
  | [] => None
  | xs => Some (foldl PrimFloat.add 0%float xs)
  end.

(** The total_amount column of files written with [scale] decimals. *)
Definition total_amount_double (scale : Z) (r : SalesRow) : option float :=
  as_double scale <$> total_amount r.

(** The sale_date, category and total_revenue columns of
    daily_sales_gold over such a silver table. *)
Definition daily_revenue_double (scale : Z) (sales_silver : list SalesRow)
  : list (option Date * option string * option float) :=
  (λ g, (g.1.1, g.1.2, sum_double (total_amount_double scale <$> g.2)))
    <$> group_by daily_key sales_silver.

(** ** Surrogate keys *)

(** A UUID, as the integer it encodes.  That [uuid()] does not return
    the same identifier twice is stated where it is used, as the
    injectivity of the supply. *)
Definition Uuid := Z.

(** A query that calls [uuid()] consumes draws of the supply: it maps
    the number of draws made so far to its result and the new number. *)
Definition Gen (A : Type) : Type := nat → A * nat.

#[global] Instance gen_ret : MRet Gen := λ A x n, (x, n).
#[global] Instance gen_bind : MBind Gen := λ A B f m n,
  let (x, n') := m n in f x n'.

(** One output row per input item, each computed in turn. *)
Fixpoint gen_map {A B} (f : A → Gen B) (l : list A) : Gen (list B) :=
  match l with
  | [] => mret []
  | x :: xs => y ← f x; ys ← gen_map f xs; mret (y :: ys)
  end.

(** ** The star schema *)

Module DimLocation.
Record t := mk {
  location_key     : Uuid;
  delivery_address : option string;
  city             : option string;
  state            : option string;
  zip_code         : option string
}.
Definition natural_key (d : t) :=
  (delivery_address d, city d, state d, zip_code d).
End DimLocation.

Module DimCustomer.
Record t := mk {
  customer_key  : Uuid;
  location_key  : Uuid;
  customer_name : option string;
  email         : option string
}.
End DimCustomer.

Module DimProduct.
Record t := mk {
  product_key  : Uuid;
  product_id   : option string;
  product_name : option string;
  category     : option string;
  price        : option Z
}.
Definition natural_key (d : t) :=
  (product_id d, product_name d, category d, price d).
End DimProduct.

Module DimDate.
Record t := mk {
  date_key : option Date;
  year     : option Z;
  month    : option Z;
  day      : option Z
}.
End DimDate.

Module FactSales.
Record t := mk {
  transaction_id : option string;
  customer_key   : Uuid;
  product_key    : Uuid;
  location_key   : Uuid;
  date_key       : option Date;
  quantity       : option Z;
  price          : option Z;
  discount       : option Z;
  total_amount   : option Z;
  payment_method : option string
}.
End FactSales.

#[global] Instance DimLocation_eq_dec : EqDecision DimLocation.t.
Proof. solve_decision. Defined.
#[global] Instance DimCustomer_eq_dec : EqDecision DimCustomer.t.
Proof. solve_decision. Defined.
#[global] Instance DimProduct_eq_dec : EqDecision DimProduct.t.
Proof. solve_decision. Defined.
#[global] Instance DimDate_eq_dec : EqDecision DimDate.t.
Proof. solve_decision. Defined.
#[global] Instance FactSales_eq_dec : EqDecision FactSales.t.
Proof. solve_decision. Defined.

(** [a JOIN b ON on]: the pairs of rows the condition holds for. *)
Definition join {A B} (on : A → B → bool) (a : list A) (b : list B)
  : list (A * B) :=
  x ← a; y ← b; if on x y then [(x, y)] else [].

(** The number of rows of [b] that the condition accepts for [x]. *)
Definition matches {A B} (on : A → B → bool) (x : A) (b : list B) : nat :=
  length (filter (λ y, on x y) b).

Definition location_tuple (r : SalesRow) :=
  (delivery_address r, city r, state r, zip_code r).

Definition product_tuple (r : SalesRow) :=
  (product_id r, product_name r, category r, price r).

(** The [ON] condition of dim_customer. *)
Definition customer_location_on (s : SalesRow) (l : DimLocation.t) : bool :=
  sql_eq (delivery_address s) (DimLocation.delivery_address l)
  && sql_eq (city s) (DimLocation.city l)
  && sql_eq (state s) (DimLocation.state l)
  && sql_eq (zip_code s) (DimLocation.zip_code l).

Definition customer_tuple (sl : SalesRow * DimLocation.t) :=
  (customer_name sl.1, email sl.1, DimLocation.location_key sl.2).

(** The three [ON] conditions of fact_sales. *)
Definition fact_customer_on (fs : SalesRow) (dc : DimCustomer.t) : bool :=
  sql_eq (customer_name fs) (DimCustomer.customer_name dc)
  && sql_eq (email fs) (DimCustomer.email dc).

Definition fact_product_on (fs : SalesRow) (dp : DimProduct.t) : bool :=
  sql_eq (product_id fs) (DimProduct.product_id dp).

Definition fact_location_on (fs : SalesRow) (dl : DimLocation.t) : bool :=
  sql_eq (city fs) (DimLocation.city dl)
  && sql_eq (state fs) (DimLocation.state dl)
  && sql_eq (zip_code fs) (DimLocation.zip_code dl).

(** The row of the three-way join of fact_sales, before [WHERE]. *)
Definition FactJoin : Type :=
  SalesRow * DimCustomer.t * DimProduct.t * DimLocation.t.

Definition fact_join (sales_silver : list SalesRow)
    (dim_customer : list DimCustomer.t) (dim_product : list DimProduct.t)
    (dim_location : list DimLocation.t) : list FactJoin :=
  join (λ j dl, fact_location_on j.1.1 dl)
    (join (λ j dp, fact_product_on j.1 dp)
       (join fact_customer_on sales_silver dim_customer)
       dim_product)
    dim_location.

(** The [SELECT] list of fact_sales. *)
Definition fact_select (j : FactJoin) : FactSales.t :=
  let '(fs, dc, dp, dl) := j in
  {| FactSales.transaction_id := transaction_id fs;
     FactSales.customer_key := DimCustomer.customer_key dc;
     FactSales.product_key := DimProduct.product_key dp;
     FactSales.location_key := DimLocation.location_key dl;
     FactSales.date_key := date (transaction_date fs);
     FactSales.quantity := quantity fs;
     FactSales.price := price fs;
     FactSales.discount := discount fs;
     FactSales.total_amount := total_amount fs;
     FactSales.payment_method := payment_method fs |}.

Definition fact_sales (sales_silver : list SalesRow)
    (dim_customer : list DimCustomer.t) (dim_product : list DimProduct.t)
    (dim_location : list DimLocation.t) : list FactSales.t :=
  fact_select <$>
    filter (λ j : FactJoin, is_not_null (transaction_id j.1.1.1))
      (fact_join sales_silver dim_customer dim_product dim_location).

(** fact_sales with its [WHERE fs.transaction_id IS NOT NULL] left out. *)
Definition fact_sales_without_where (sales_silver : list SalesRow)
    (dim_customer : list DimCustomer.t) (dim_product : list DimProduct.t)
    (dim_location : list DimLocation.t) : list FactSales.t :=
  fact_select <$> fact_join sales_silver dim_customer dim_product dim_location.

Definition dim_date_row (r : SalesRow) : DimDate.t :=
  {| DimDate.date_key := date (transaction_date r);
     DimDate.year := year (transaction_date r);
     DimDate.month := month (transaction_date r);
     DimDate.day := day (transaction_date r) |}.

(** [SELECT DISTINCT ... WHERE transaction_date IS NOT NULL] *)
Definition dim_date (sales_silver : list SalesRow) : list DimDate.t :=
  remove_dups
    (dim_date_row <$>
       filter (λ r, is_not_null (transaction_date r)) sales_silver).

Module StarSchema.
Record t := mk {
  dim_location : list DimLocation.t;
  dim_customer : list DimCustomer.t;
  dim_product  : list DimProduct.t;
  dim_date     : list DimDate.t;
  fact_sales   : list FactSales.t
}.
End StarSchema.

(** The [SELECT] lists of the three keyed dimensions: the drawn key and
    the columns of the group. *)
Definition dim_location_row (k : Uuid)
    (g : (option string * option string * option string * option string)
         * list SalesRow) : DimLocation.t :=
  let '(a, c, s, z) := g.1 in
  {| DimLocation.location_key := k;
     DimLocation.delivery_address := a;
     DimLocation.city := c;
     DimLocation.state := s;
     DimLocation.zip_code := z |}.

Definition dim_customer_row (k : Uuid)
    (g : (option string * option string * Uuid)
         * list (SalesRow * DimLocation.t)) : DimCustomer.t :=
  let '(name, mail, lk) := g.1 in
  {| DimCustomer.customer_key := k;
     DimCustomer.location_key := lk;
     DimCustomer.customer_name := name;
     DimCustomer.email := mail |}.

Definition dim_product_row (k : Uuid)
    (g : (option string * option string * option string * option Z)
         * list SalesRow) : DimProduct.t :=
  let '(id, name, cat, p) := g.1 in
  {| DimProduct.product_key := k;
     DimProduct.product_id := id;
     DimProduct.product_name := name;
     DimProduct.category := cat;
     DimProduct.price := p |}.

Section Run.
(** The identifiers [uuid()] returns, in the order of its calls. *)
Variable uuid_supply : nat → Uuid.

(** [uuid()] *)
Definition uuid : Gen Uuid := λ n, (uuid_supply n, S n).

(** [SELECT uuid() AS key, ... GROUP BY ...]: one call per group. *)
Definition select_with_uuid {G R} (row : Uuid → G → R) (groups : list G)
  : Gen (list R) :=
  gen_map (λ g, k ← uuid; mret (row k g)) groups.

Definition dim_location (sales_silver : list SalesRow)
  : Gen (list DimLocation.t) :=
  select_with_uuid dim_location_row (group_by location_tuple sales_silver).

Definition dim_customer (sales_silver : list SalesRow)
    (dim_location : list DimLocation.t) : Gen (list DimCustomer.t) :=
  select_with_uuid dim_customer_row
    (group_by customer_tuple
       (join customer_location_on sales_silver dim_location)).

Definition dim_product (sales_silver : list SalesRow)
  : Gen (list DimProduct.t) :=
  select_with_uuid dim_product_row (group_by product_tuple sales_silver).

(** One refresh of the five materialized views over a silver table;
    the views that read [LIVE.dim_*] read the tables of this refresh. *)
Definition star_schema (sales_silver : list SalesRow) : Gen StarSchema.t :=
  dl ← dim_location sales_silver;
  dc ← dim_customer sales_silver dl;
  dp ← dim_product sales_silver;
  mret {| StarSchema.dim_location := dl;
          StarSchema.dim_customer := dc;
          StarSchema.dim_product := dp;
          StarSchema.dim_date := dim_date sales_silver;
          StarSchema.fact_sales := fact_sales sales_silver dc dp dl |}.
End Run.

(** ** Sample rows *)

Definition new_year_2024 : Timestamp := mkTimestamp (mkDate 2024 1 1) 0.

(** A sale of headphones (category Electronics, 50 apiece) on 2024-01-01. *)
Definition electronics_sale (id customer address : string) (items : Z)
  : SalesRow :=
  {| transaction_id := Some id; product_id := Some "P-1";
     product_name := Some "Headphones"; customer_name := Some customer;
     email := Some (customer +:+ "@example.com");
     delivery_address := Some address;
     city := Some "Springfield"; state := Some "IL"; zip_code := Some "62701";
     category := Some "Electronics"; quantity := Some items;
     price := Some 50; discount := Some 0; total_amount := Some (50 * items);
     payment_method := Some "card";
     transaction_date := Some new_year_2024 |}.

(** A sale of one item on 2024-01-01, with its category and its amount in
    cents. *)
Definition sale (id category : string) (cents : Z) : SalesRow :=
  {| transaction_id := Some id; product_id := Some ("P-" +:+ category);
     product_name := Some category; customer_name := Some "ann";
     email := Some "ann@example.com";
     delivery_address := Some "1 Main St";
     city := Some "Springfield"; state := Some "IL"; zip_code := Some "62701";
     category := Some category; quantity := Some 1;
     price := Some cents; discount := Some 0; total_amount := Some cents;
     payment_method := Some "card";
     transaction_date := Some new_year_2024 |}.

(** * Properties *)

(** ** Grouping *)

Section GroupByFacts.
Context {A K : Type} `{EqDecision K} (key : A → K).

Lemma group_rows_cons k r rows :
  group_rows key k (r :: rows)
  = if decide (key r = k) then r :: group_rows key k rows
    else group_rows key k rows.
Proof. unfold group_rows. rewrite filter_cons. done. Qed.

Lemma elem_of_group_rows k r rows :
  r ∈ group_rows key k rows ↔ key r = k ∧ r ∈ rows.
Proof. unfold group_rows. by rewrite list_elem_of_filter. Qed.

Lemma group_by_keys rows :
  (group_by key rows).*1 = remove_dups (key <$> rows).
Proof.
  unfold group_by. rewrite <- list_fmap_compose.
  rewrite <- (list_fmap_id (remove_dups _)) at 2.
  by apply list_fmap_ext.
Qed.

Lemma elem_of_group_by g rows :
  g ∈ group_by key rows ↔
  g.2 = group_rows key g.1 rows ∧ ∃ r, r ∈ rows ∧ key r = g.1.
Proof.
  unfold group_by. rewrite list_elem_of_fmap. split.
  - intros (k & -> & Hk). simpl. split; [done|].
    apply elem_of_remove_dups, list_elem_of_fmap in Hk.
    destruct Hk as (r & -> & Hr). by exists r.
  - intros (Hg & r & Hr & Hk). exists g.1. split.
    + destruct g; simpl in *; by subst.
    + apply elem_of_remove_dups, list_elem_of_fmap. eauto.
Qed.

End GroupByFacts.

(** ** Aggregates *)

Lemma non_null_cons {A} (x : option A) col :
  non_null (x :: col)
  = match x with Some v => v :: non_null col | None => non_null col end.
Proof. by destruct x. Qed.

Lemma elem_of_non_null {A} (v : A) col : v ∈ non_null col ↔ Some v ∈ col.
Proof.
  unfold non_null. rewrite list_elem_of_omap. split.
  - intros (x & Hx & Heq). simpl in Heq. by subst.
  - intros Hv. by exists (Some v).
Qed.

(** SUM as a flag (is any value left?) and the total of the values. *)
Lemma sql_sum_Some col v :
  sql_sum col = Some v ↔ non_null col ≠ [] ∧ total (non_null col) = v.
Proof.
  unfold sql_sum. destruct (non_null col) as [|x xs]; split.
  - done.
  - by intros [? _].
  - intros [= <-]. done.
  - intros [_ <-]. done.
Qed.

Lemma sql_sum_default col : default 0 (sql_sum col) = total (non_null col).
Proof. unfold sql_sum. by destruct (non_null col). Qed.

Lemma sql_sum_None col : sql_sum col = None ↔ non_null col = [].
Proof. unfold sql_sum. by destruct (non_null col). Qed.

Lemma total_non_null_default {A} (f : A → option Z) l :
  total (non_null (f <$> l)) = total ((λ x, default 0 (f x)) <$> l).
Proof.
  induction l as [|x l IH]; [done|].
  rewrite !fmap_cons, non_null_cons.
  destruct (f x); simpl; rewrite <- IH; done.
Qed.

Section Partition.
Context {A K : Type} `{EqDecision K} (key : A → K) (val : A → Z).

(** Among distinct keys, a row adds its value to one group only. *)
Lemma total_one_group (ks : list K) (k0 : K) (v : Z) (rest : K → Z) :
  NoDup ks → k0 ∈ ks →
  total ((λ k, if decide (k0 = k) then v + rest k else rest k) <$> ks)
  = v + total (rest <$> ks).
Proof.
  induction 1 as [|k ks Hk Hnd IH]; [by intros ?%elem_of_nil|].
  intros Hin. rewrite !fmap_cons. simpl.
  destruct (decide (k0 = k)) as [->|Hne].
  - assert (total ((λ k1, if decide (k = k1) then v + rest k1 else rest k1)
                   <$> ks) = total (rest <$> ks)) as ->; [|lia].
    f_equal. apply list_fmap_ext. intros i k1 Hk1.
    case_decide; [subst|done].
    exfalso. apply Hk. eapply list_elem_of_lookup_2, Hk1.
  - apply elem_of_cons in Hin as [?|Hin]; [done|].
    rewrite IH by done. lia.
Qed.

(** The groups split the rows: the totals of the groups add up to the
    total over all rows. *)
Lemma total_groups (ks : list K) (rows : list A) :
  NoDup ks → (∀ r, r ∈ rows → key r ∈ ks) →
  total ((λ k, total (val <$> group_rows key k rows)) <$> ks)
  = total (val <$> rows).
Proof.
  intros Hnd. induction rows as [|r rows IH]; intros Hin.
  - clear. induction ks as [|k ks IHk]; [done|].
    rewrite fmap_cons. unfold group_rows in *. simpl in *. lia.
  - rewrite fmap_cons. simpl.
    rewrite <- IH by (intros; by apply Hin, list_elem_of_further).
    rewrite <- (total_one_group ks (key r) (val r)); [|done|apply Hin, list_elem_of_here].
    f_equal. apply list_fmap_ext. intros _ k _.
    rewrite group_rows_cons. by case_decide.
Qed.
End Partition.

Lemma non_null_nil {A} (col : list (option A)) :
  non_null col = [] ↔ ∀ v, Some v ∉ col.
Proof.
  split.
  - intros Hnil v Hv%elem_of_non_null. rewrite Hnil in Hv.
    by apply elem_of_nil in Hv.
  - intros Hcol. apply elem_of_nil_inv. intros v Hv%elem_of_non_null.
    by apply (Hcol v).
Qed.

Lemma non_null_inhabited {A} (col : list (option A)) :
  non_null col ≠ [] ↔ ∃ v, Some v ∈ col.
Proof.
  split.
  - destruct (non_null col) as [|v vs] eqn:E; [done|]. intros _. exists v.
    apply elem_of_non_null. rewrite E. apply list_elem_of_here.
  - intros [v Hv] Hnil. by apply (proj1 (non_null_nil col) Hnil v).
Qed.

Section SumOfGroups.
Context {A K : Type} `{EqDecision K} (key : A → K) (f : A → option Z).

Let group_sum (rows : list A) (k : K) : option Z :=
  sql_sum (f <$> group_rows key k rows).

Lemma group_sums_total rows :
  total (non_null (group_sum rows <$> remove_dups (key <$> rows)))
  = total (non_null (f <$> rows)).
Proof.
  rewrite !total_non_null_default.
  rewrite <- (total_groups key (λ x, default 0 (f x))
                (remove_dups (key <$> rows)) rows).
  - f_equal. apply list_fmap_ext. intros _ k _. unfold group_sum.
    by rewrite sql_sum_default, total_non_null_default.
  - apply NoDup_remove_dups.
  - intros r Hr. by apply elem_of_remove_dups, list_elem_of_fmap_2.
Qed.

Lemma group_sums_inhabited rows :
  non_null (group_sum rows <$> remove_dups (key <$> rows)) ≠ []
  ↔ non_null (f <$> rows) ≠ [].
Proof.
  rewrite !non_null_inhabited. split.
  - intros (w & (k & Hw & Hk)%list_elem_of_fmap).
    symmetry in Hw. apply sql_sum_Some in Hw as [Hne _].
    apply non_null_inhabited in Hne as (v & (r & Hv & Hr)%list_elem_of_fmap).
    apply elem_of_group_rows in Hr as [_ Hr].
    exists v. rewrite Hv. by apply list_elem_of_fmap_2.
  - intros (v & (r & Hv & Hr)%list_elem_of_fmap).
    assert (non_null (f <$> group_rows key (key r) rows) ≠ []) as Hne.
    { apply non_null_inhabited. exists v. rewrite Hv.
      by apply list_elem_of_fmap_2, elem_of_group_rows. }
    exists (total (non_null (f <$> group_rows key (key r) rows))).
    apply list_elem_of_fmap. exists (key r). split.
    + symmetry. by apply sql_sum_Some.
    + by apply elem_of_remove_dups, list_elem_of_fmap_2.
Qed.

(** Summing the sums of the groups is summing over all rows, also
    where NULLs are skipped and an all-NULL column sums to NULL. *)
Lemma sql_sum_groups rows :
  sql_sum (group_sum rows <$> remove_dups (key <$> rows))
  = sql_sum (f <$> rows).
Proof.
  destruct (sql_sum (f <$> rows)) as [v|] eqn:E.
  - apply sql_sum_Some in E as [Hne Hv]. apply sql_sum_Some.
    by rewrite group_sums_inhabited, group_sums_total.
  - apply sql_sum_None in E. apply sql_sum_None.
    destruct (decide (non_null (group_sum rows <$> remove_dups (key <$> rows))
                      = [])) as [|Hne]; [done|].
    by apply group_sums_inhabited in Hne.
Qed.
End SumOfGroups.

(** ** Silver layer *)

Lemma elem_of_sales_silver r sales_bronze :
  r ∈ sales_silver sales_bronze ↔ valid_transaction r ∧ r ∈ sales_bronze.
Proof. unfold sales_silver. by rewrite list_elem_of_filter. Qed.

Lemma valid_transaction_spec r :
  valid_transaction r ↔ transaction_id r ≠ None ∧ product_id r ≠ None.
Proof.
  unfold valid_transaction.
  destruct (transaction_id r), (product_id r); simpl; split; try done.
  all: by intros [? ?].
Qed.

(** C3. The silver table is the bronze table read row by row: a row whose
    transaction_id or product_id is NULL is left out, a row with both
    present is passed on as it is, at its place (so every field is the
    bronze row's); hence no silver row has a NULL transaction_id or
    product_id. *)
Theorem sales_silver_drops_or_keeps :
  ∀ (before after : list SalesRow) (r : SalesRow),
    sales_silver (before ++ r :: after)
    = sales_silver before
      ++ (match transaction_id r, product_id r with
          | Some _, Some _ => [r]
          | _, _ => []
          end)
      ++ sales_silver after
    ∧ ∀ s, s ∈ sales_silver (before ++ r :: after) →
           transaction_id s ≠ None ∧ product_id s ≠ None.
Proof.
  intros before after r. split.
  - unfold sales_silver. rewrite filter_app, filter_cons.
    unfold valid_transaction.
    by destruct (transaction_id r), (product_id r).
  - intros s [Hs _]%elem_of_sales_silver. by apply valid_transaction_spec.
Qed.

(** ** Gold layer *)

Lemma daily_sales_gold_groups sales_silver (col : DailySales.t → option Z)
    (f : SalesRow → option Z) :
  (∀ g, col (daily_sales_row g) = sql_sum (f <$> g.2)) →
  col <$> daily_sales_gold sales_silver
  = (λ k, sql_sum (f <$> group_rows daily_key k sales_silver))
      <$> remove_dups (daily_key <$> sales_silver).
Proof.
  intros Hcol. unfold daily_sales_gold, group_by.
  rewrite <- !list_fmap_compose. apply list_fmap_ext.
  intros _ k _. simpl. by rewrite Hcol.
Qed.

(** C4, where the code departs from it. Three valid sales of one day, of
    0.30 and 0.10 in Electronics and 0.20 in Books, in a file with
    decimals: total_amount is a DOUBLE column.  The silver rows add up to
    0.3 + 0.2 + 0.1 = 0.6, the two rows of daily_sales_gold to
    (0.3 + 0.1) + 0.2 = 0.6000000000000001: the sums do not reconcile. *)
Theorem daily_sales_gold_revenue_differs_in_double :
  let silver := sales_silver [sale "T-1" "Electronics" 30;
                              sale "T-2" "Books" 20;
                              sale "T-3" "Electronics" 10] in
  let gold := daily_revenue_double 2 silver in
  length silver = 3%nat
  ∧ length gold = 2%nat
  ∧ sum_double (total_amount_double 2 <$> silver)
    = Some 0x1.3333333333333p-1%float
  ∧ sum_double (snd <$> gold) = Some 0x1.3333333333334p-1%float
  ∧ sum_double (snd <$> gold) ≠ sum_double (total_amount_double 2 <$> silver).
Proof.
  repeat split; try (vm_compute; reflexivity).
  intros Heq.
  apply (f_equal (λ o, match o with
                       | Some x => PrimFloat.eqb x 0x1.3333333333333p-1
                       | None => false
                       end)) in Heq.
  vm_compute in Heq. discriminate Heq.
Qed.

Lemma elem_of_daily_sales_gold g sales_silver :
  g ∈ daily_sales_gold sales_silver ↔
  ∃ k, g = daily_sales_row (k, group_rows daily_key k sales_silver)
       ∧ ∃ r, r ∈ sales_silver ∧ daily_key r = k.
Proof.
  unfold daily_sales_gold. rewrite list_elem_of_fmap. split.
  - intros ([k rows] & -> & (Hrows & Hr)%elem_of_group_by).
    simpl in *. subst rows. by exists k.
  - intros (k & -> & Hr). eexists. split; [done|].
    by apply elem_of_group_by.
Qed.

Lemma count_distinct_positive {A} `{EqDecision A} (col : list (option A)) v :
  Some v ∈ col → 1 ≤ count_distinct col.
Proof.
  intros Hv%elem_of_non_null%elem_of_remove_dups. unfold count_distinct.
  destruct (remove_dups (non_null col)); [by apply elem_of_nil in Hv|].
  simpl. lia.
Qed.

Lemma sql_div_defined a n : n ≠ 0 → sql_div a n ≠ DivideByZero.
Proof.
  intros Hn. unfold sql_div. rewrite bool_decide_eq_false_2 by done.
  by destruct a.
Qed.

(** C9. Over the silver table of any bronze table, every row of
    daily_sales_gold stands for a group that holds a silver row with a
    transaction_id; its total_transactions is at least 1 and its
    average_transaction_value is not a division by zero. *)
Theorem daily_sales_gold_no_division_by_zero :
  ∀ (sales_bronze : list SalesRow) (g : DailySales.t),
    g ∈ daily_sales_gold (sales_silver sales_bronze) →
    (∃ r, r ∈ sales_silver sales_bronze
          ∧ date (transaction_date r) = DailySales.sale_date g
          ∧ category r = DailySales.category g
          ∧ transaction_id r ≠ None)
    ∧ 1 ≤ DailySales.total_transactions g
    ∧ DailySales.average_transaction_value g ≠ DivideByZero.
Proof.
  intros bronze g (k & -> & r & Hr & Hk)%elem_of_daily_sales_gold.
  pose proof Hr as [[Hid _]%valid_transaction_spec _]%elem_of_sales_silver.
  assert (1 ≤ count_distinct
                (transaction_id <$> group_rows daily_key k (sales_silver bronze)))
    as Hcount.
  { destruct (transaction_id r) as [t|] eqn:Ht; [|done].
    apply (count_distinct_positive _ t). rewrite <- Ht.
    by apply list_elem_of_fmap_2, elem_of_group_rows. }
  split; [|split].
  - exists r. subst k. done.
  - done.
  - simpl. apply sql_div_defined. lia.
Qed.

Lemma daily_sales_gold_no_division_by_zero_witness :
  ∃ g, g ∈ daily_sales_gold (sales_silver [electronics_sale "T-1" "ann" "1 Main St" 2])
       ∧ 1 ≤ DailySales.total_transactions g
       ∧ DailySales.average_transaction_value g ≠ DivideByZero.
Proof.
  eexists. split; [vm_compute; apply list_elem_of_here|].
  eapply proj2, (daily_sales_gold_no_division_by_zero
                   [electronics_sale "T-1" "ann" "1 Main St" 2]).
  vm_compute. apply list_elem_of_here.
Defined.

(** C7. Two cleansed rows of 2024-01-01 in category Electronics, with
    total_amount 100 and 50, give one daily_sales_gold row for that day
    and category, with total_transactions 2 and total_revenue 150. *)
Theorem daily_sales_gold_electronics_example :
  ∃ r1 r2 g,
    sales_silver [r1; r2] = [r1; r2]
    ∧ date (transaction_date r1) = Some (mkDate 2024 1 1)
    ∧ date (transaction_date r2) = Some (mkDate 2024 1 1)
    ∧ category r1 = Some "Electronics" ∧ category r2 = Some "Electronics"
    ∧ total_amount r1 = Some 100 ∧ total_amount r2 = Some 50
    ∧ daily_sales_gold [r1; r2] = [g]
    ∧ DailySales.sale_date g = Some (mkDate 2024 1 1)
    ∧ DailySales.category g = Some "Electronics"
    ∧ DailySales.total_transactions g = 2
    ∧ DailySales.total_revenue g = Some 150.
Proof.
  exists (electronics_sale "T-1" "ann" "1 Main St" 2), (electronics_sale "T-2" "ann" "1 Main St" 1).
  eexists. repeat split; vm_compute; reflexivity.
Qed.

(** ** Joins *)

Lemma elem_of_join {A B} (on : A → B → bool) (a : list A) (b : list B) x y :
  (x, y) ∈ join on a b ↔ x ∈ a ∧ y ∈ b ∧ on x y = true.
Proof.
  unfold join. rewrite list_elem_of_bind. split.
  - intros (x' & (y' & Hxy & Hy)%list_elem_of_bind & Hx).
    destruct (on x' y') eqn:Hon; [|by apply elem_of_nil in Hxy].
    apply list_elem_of_singleton in Hxy as [= -> ->]. done.
  - intros (Hx & Hy & Hon). exists x. split; [|done].
    apply list_elem_of_bind. exists y. split; [|done].
    rewrite Hon. apply list_elem_of_here.
Qed.

Lemma filter_all {A} (P : A → Prop) `{∀ x, Decision (P x)} (l : list A) :
  (∀ x, x ∈ l → P x) → filter P l = l.
Proof.
  induction l as [|x l IH]; intros Hall; [done|].
  rewrite filter_cons_True by apply Hall, list_elem_of_here.
  f_equal. apply IH. intros y Hy. by apply Hall, list_elem_of_further.
Qed.

Lemma sql_eq_true {A} `{EqDecision A} (a b : option A) :
  sql_eq a b = true ↔ ∃ v, a = Some v ∧ b = Some v.
Proof.
  destruct a as [x|], b as [y|]; simpl; split; try done.
  - intros ->%bool_decide_eq_true. by exists y.
  - intros (v & [= ->] & [= ->]). by apply bool_decide_eq_true.
  - by intros (v & ? & ?).
  - by intros (v & ? & ?).
  - by intros (v & ? & ?).
Qed.

Lemma elem_of_fact_join j silver dc dp dl :
  j ∈ fact_join silver dc dp dl → j.1.1.1 ∈ silver.
Proof.
  destruct j as [[[fs c] p] l]. unfold fact_join. simpl.
  intros (Hp & _ & _)%elem_of_join.
  apply elem_of_join in Hp as (Hc & _ & _).
  by apply elem_of_join in Hc as (Hfs & _ & _).
Qed.

(** ** Drawing surrogate keys *)

Lemma fmap_zip_with_snd {A B C T} (f : A → B → C) (g : C → T) (h : B → T)
    (l : list A) (k : list B) :
  (∀ x y, g (f x y) = h y) → (length k ≤ length l)%nat →
  g <$> zip_with f l k = h <$> k.
Proof.
  intros Hg. revert l.
  induction k as [|y k IH]; intros [|x l] Hlen; simpl in *; try done; try lia.
  f_equal; [apply Hg | apply IH; lia].
Qed.

Section Keys.
Variable uuid_supply : nat → Uuid.

(** Rows built from one [uuid()] draw per group take consecutive draws. *)
Lemma select_with_uuid_draws {G R} (mk : Uuid → G → R) groups n :
  select_with_uuid uuid_supply mk groups n
  = (zip_with mk (uuid_supply <$> seq n (length groups)) groups,
     (n + length groups)%nat).
Proof.
  unfold select_with_uuid. revert n.
  induction groups as [|g groups IH]; intros n.
  - simpl. unfold mret, gen_ret. f_equal. lia.
  - simpl. unfold mbind, gen_bind, mret, gen_ret, uuid in *.
    rewrite IH. f_equal. lia.
Qed.

Section Keyed.
Context {G R : Type} (mk : Uuid → G → R) (key_of : R → Uuid).
Context (groups : list G) (n : nat).
Hypothesis key_of_mk : ∀ k g, key_of (mk k g) = k.

Let rows := zip_with mk (uuid_supply <$> seq n (length groups)) groups.

Lemma keyed_keys : key_of <$> rows = uuid_supply <$> seq n (length groups).
Proof.
  apply fmap_zip_with_l; [done|]. by rewrite length_fmap, length_seq.
Qed.

Lemma keyed_groups {T} (tuple_of : R → T) (tuple : G → T) :
  (∀ k g, tuple_of (mk k g) = tuple g) →
  tuple_of <$> rows = tuple <$> groups.
Proof.
  intros Htuple. apply fmap_zip_with_snd; [done|].
  by rewrite length_fmap, length_seq.
Qed.

Lemma keyed_drawn r :
  r ∈ rows → ∃ i, (n ≤ i < n + length groups)%nat
                  ∧ key_of r = uuid_supply i.
Proof.
  intros Hr. apply (list_elem_of_fmap_2 key_of) in Hr.
  rewrite keyed_keys in Hr.
  apply list_elem_of_fmap in Hr as (i & -> & Hi%elem_of_seq). eauto.
Qed.

Lemma keyed_NoDup : Inj (=) (=) uuid_supply → NoDup (key_of <$> rows).
Proof.
  intros Hinj. rewrite keyed_keys. apply NoDup_fmap_2; [done|].
  apply NoDup_seq.
Qed.
End Keyed.
End Keys.

(** ** Dimensions *)

Section Dimensions.
Variable uuid_supply : nat → Uuid.

Lemma dim_location_row_key k g :
  DimLocation.location_key (dim_location_row k g) = k.
Proof. by destruct g as [[[[a c] s] z] rows]. Qed.

Lemma dim_location_row_tuple k g :
  DimLocation.natural_key (dim_location_row k g) = g.1.
Proof. by destruct g as [[[[a c] s] z] rows]. Qed.

Lemma dim_customer_row_key k g :
  DimCustomer.customer_key (dim_customer_row k g) = k.
Proof. by destruct g as [[[name mail] lk] rows]. Qed.

Lemma dim_customer_row_tuple k g :
  (DimCustomer.customer_name (dim_customer_row k g),
   DimCustomer.email (dim_customer_row k g),
   DimCustomer.location_key (dim_customer_row k g)) = g.1.
Proof. by destruct g as [[[name mail] lk] rows]. Qed.

Lemma dim_product_row_key k g :
  DimProduct.product_key (dim_product_row k g) = k.
Proof. by destruct g as [[[[id name] cat] p] rows]. Qed.

Lemma dim_product_row_tuple k g :
  DimProduct.natural_key (dim_product_row k g) = g.1.
Proof. by destruct g as [[[[id name] cat] p] rows]. Qed.

Lemma dim_location_tuples silver n :
  DimLocation.natural_key <$> (dim_location uuid_supply silver n).1
  = remove_dups (location_tuple <$> silver).
Proof.
  unfold dim_location. rewrite select_with_uuid_draws. simpl.
  rewrite (keyed_groups _ _ _ _ _ fst) by apply dim_location_row_tuple.
  apply group_by_keys.
Qed.

Lemma dim_product_tuples silver n :
  DimProduct.natural_key <$> (dim_product uuid_supply silver n).1
  = remove_dups (product_tuple <$> silver).
Proof.
  unfold dim_product. rewrite select_with_uuid_draws. simpl.
  rewrite (keyed_groups _ _ _ _ _ fst) by apply dim_product_row_tuple.
  apply group_by_keys.
Qed.

Lemma dim_customer_tuples silver dl n :
  (λ c, (DimCustomer.customer_name c, DimCustomer.email c,
         DimCustomer.location_key c))
    <$> (dim_customer uuid_supply silver dl n).1
  = remove_dups (customer_tuple <$> join customer_location_on silver dl).
Proof.
  unfold dim_customer. rewrite select_with_uuid_draws. simpl.
  rewrite (keyed_groups _ _ _ _ _ fst) by apply dim_customer_row_tuple.
  apply group_by_keys.
Qed.

(** A dim_customer row comes from a silver row joined to its location. *)
Lemma elem_of_dim_customer c silver dl n :
  c ∈ (dim_customer uuid_supply silver dl n).1 →
  ∃ s l, s ∈ silver ∧ l ∈ dl ∧ customer_location_on s l = true
         ∧ DimCustomer.customer_name c = customer_name s
         ∧ DimCustomer.email c = email s
         ∧ DimCustomer.location_key c = DimLocation.location_key l.
Proof.
  intros Hc.
  apply (list_elem_of_fmap_2
           (λ c, (DimCustomer.customer_name c, DimCustomer.email c,
                  DimCustomer.location_key c))) in Hc.
  rewrite dim_customer_tuples, elem_of_remove_dups in Hc.
  apply list_elem_of_fmap in Hc as ([s l] & [= Hname Hmail Hkey] & Hsl).
  apply elem_of_join in Hsl as (Hs & Hl & Hon).
  by exists s, l.
Qed.

Lemma dim_customer_complete s l silver dl n :
  s ∈ silver → l ∈ dl → customer_location_on s l = true →
  ∃ c, c ∈ (dim_customer uuid_supply silver dl n).1
       ∧ DimCustomer.customer_name c = customer_name s
       ∧ DimCustomer.email c = email s
       ∧ DimCustomer.location_key c = DimLocation.location_key l.
Proof.
  intros Hs Hl Hon.
  assert (customer_tuple (s, l)
            ∈ remove_dups (customer_tuple <$> join customer_location_on silver dl))
    as Hin.
  { apply elem_of_remove_dups, list_elem_of_fmap_2. by apply elem_of_join. }
  rewrite <- (dim_customer_tuples silver dl n) in Hin.
  apply list_elem_of_fmap in Hin as (c & [= Hname Hmail Hkey] & Hc).
  by exists c.
Qed.

Lemma star_schema_unfold silver n :
  star_schema uuid_supply silver n
  = let dl := dim_location uuid_supply silver n in
    let dc := dim_customer uuid_supply silver dl.1 dl.2 in
    let dp := dim_product uuid_supply silver dc.2 in
    ({| StarSchema.dim_location := dl.1;
        StarSchema.dim_customer := dc.1;
        StarSchema.dim_product := dp.1;
        StarSchema.dim_date := dim_date silver;
        StarSchema.fact_sales := fact_sales silver dc.1 dp.1 dl.1 |}, dp.2).
Proof.
  unfold star_schema, mbind, gen_bind, mret, gen_ret. simpl.
  destruct (dim_location uuid_supply silver n) as [dl n1]. simpl.
  destruct (dim_customer uuid_supply silver dl n1) as [dc n2]. simpl.
  by destruct (dim_product uuid_supply silver n2) as [dp n3].
Qed.

(** The keys of a refresh are the draws it made. *)
Lemma star_schema_draws silver n :
  let run := star_schema uuid_supply silver n in
  (∀ d, d ∈ StarSchema.dim_location run.1 →
        ∃ i, (n ≤ i < run.2)%nat
             ∧ DimLocation.location_key d = uuid_supply i)
  ∧ (∀ c, c ∈ StarSchema.dim_customer run.1 →
          ∃ i, (n ≤ i < run.2)%nat
               ∧ DimCustomer.customer_key c = uuid_supply i)
  ∧ (∀ p, p ∈ StarSchema.dim_product run.1 →
          ∃ i, (n ≤ i < run.2)%nat
               ∧ DimProduct.product_key p = uuid_supply i).
Proof.
  rewrite star_schema_unfold. simpl.
  unfold dim_location, dim_customer, dim_product.
  rewrite !select_with_uuid_draws. simpl.
  split; [|split].
  - intros d (i & Hi & ->)%(keyed_drawn _ _ DimLocation.location_key);
      [|apply dim_location_row_key]. exists i. split; [lia|done].
  - intros c (i & Hi & ->)%(keyed_drawn _ _ DimCustomer.customer_key);
      [|apply dim_customer_row_key]. exists i. split; [lia|done].
  - intros p (i & Hi & ->)%(keyed_drawn _ _ DimProduct.product_key);
      [|apply dim_product_row_key]. exists i. split; [lia|done].
Qed.
End Dimensions.

(** ** The star schema *)

(** C6. Dim_Location has one row for each distinct (delivery_address,
    city, state, zip_code) of the silver rows and no other: its tuples
    are those of the silver table, no two of its rows carry the same
    tuple, and, as [uuid()] does not repeat itself, no two carry the same
    location_key. *)
Theorem dim_location_one_row_per_tuple :
  ∀ (uuid_supply : nat → Uuid) (sales_silver : list SalesRow) (n : nat),
    Inj (=) (=) uuid_supply →
    let dl := (dim_location uuid_supply sales_silver n).1 in
    (∀ t, t ∈ DimLocation.natural_key <$> dl
          ↔ t ∈ location_tuple <$> sales_silver)
    ∧ NoDup (DimLocation.natural_key <$> dl)
    ∧ NoDup (DimLocation.location_key <$> dl).
Proof.
  intros supply silver n Hinj dl. split; [|split].
  - intros t. unfold dl. by rewrite dim_location_tuples, elem_of_remove_dups.
  - unfold dl. rewrite dim_location_tuples. apply NoDup_remove_dups.
  - unfold dl, dim_location. rewrite select_with_uuid_draws. simpl.
    apply keyed_NoDup; [apply dim_location_row_key | done].
Qed.

Lemma dim_location_one_row_per_tuple_witness :
  let dl := (dim_location Z.of_nat
               [electronics_sale "T-1" "ann" "1 Main St" 2;
                electronics_sale "T-2" "bob" "2 Main St" 1;
                electronics_sale "T-3" "ann" "1 Main St" 3] 0%nat).1 in
  length dl = 2%nat
  ∧ NoDup (DimLocation.natural_key <$> dl)
  ∧ NoDup (DimLocation.location_key <$> dl).
Proof.
  split; [reflexivity|].
  eapply proj2, (dim_location_one_row_per_tuple Z.of_nat).
  intros i j Hij. lia.
Defined.

(** C8. After a refresh, the location_key of every Dim_Customer row is
    the location_key of a Dim_Location row. *)
Theorem dim_customer_location_key_resolves :
  ∀ (uuid_supply : nat → Uuid) (sales_silver : list SalesRow) (n : nat)
    (c : DimCustomer.t),
    let star := (star_schema uuid_supply sales_silver n).1 in
    c ∈ StarSchema.dim_customer star →
    ∃ l, l ∈ StarSchema.dim_location star
         ∧ DimLocation.location_key l = DimCustomer.location_key c.
Proof.
  intros supply silver n c star. unfold star.
  rewrite star_schema_unfold. simpl.
  intros (s & l & _ & Hl & _ & _ & _ & Hkey)%elem_of_dim_customer.
  by exists l.
Qed.

Lemma dim_customer_location_key_resolves_witness :
  let star := (star_schema Z.of_nat
                 [electronics_sale "T-1" "ann" "1 Main St" 2] 0%nat).1 in
  ∃ c l, c ∈ StarSchema.dim_customer star
         ∧ l ∈ StarSchema.dim_location star
         ∧ DimLocation.location_key l = DimCustomer.location_key c.
Proof.
  intros star.
  assert (DimCustomer.mk 1 0 (Some "ann") (Some "ann@example.com")
            ∈ StarSchema.dim_customer star) as Hc
    by (vm_compute; apply list_elem_of_here).
  destruct (dim_customer_location_key_resolves Z.of_nat _ 0%nat _ Hc)
    as (l & Hl & Hkey).
  by exists (DimCustomer.mk 1 0 (Some "ann") (Some "ann@example.com")), l.
Defined.

(** C10. Over the silver table of any bronze table, and whatever the
    dimension tables hold, fact_sales is the same with and without its
    [WHERE fs.transaction_id IS NOT NULL]. *)
Theorem fact_sales_where_is_redundant :
  ∀ (sales_bronze : list SalesRow) (dim_customer : list DimCustomer.t)
    (dim_product : list DimProduct.t) (dim_location : list DimLocation.t),
    fact_sales (sales_silver sales_bronze) dim_customer dim_product
      dim_location
    = fact_sales_without_where (sales_silver sales_bronze) dim_customer
        dim_product dim_location.
Proof.
  intros bronze dc dp dl. unfold fact_sales, fact_sales_without_where.
  f_equal. apply filter_all.
  intros j [[Hid _]%valid_transaction_spec _]%elem_of_fact_join%elem_of_sales_silver.
  by destruct (transaction_id j.1.1.1).
Qed.

(** The join of dim_customer holds exactly between a silver row whose
    four location columns are present and the Dim_Location row of its
    tuple. *)
Lemma customer_location_on_spec s l :
  customer_location_on s l = true ↔
  DimLocation.natural_key l = location_tuple s
  ∧ ∃ a c st z, location_tuple s = (Some a, Some c, Some st, Some z).
Proof.
  unfold customer_location_on, DimLocation.natural_key, location_tuple.
  rewrite !andb_true_iff, !sql_eq_true. split.
  - intros [[[(a & Ha & Ha') (c & Hc & Hc')] (st & Hst & Hst')] (z & Hz & Hz')].
    rewrite Ha, Ha', Hc, Hc', Hst, Hst', Hz, Hz'. split; [done|].
    by exists a, c, st, z.
  - intros [[= Ha Hc Hst Hz] (a & c & st & z & [= Ha' Hc' Hst' Hz'])].
    rewrite Ha, Hc, Hst, Hz, Ha', Hc', Hst', Hz'.
    repeat split; by eexists.
Qed.

Section Reruns.
Variable uuid_supply : nat → Uuid.
Hypothesis uuid_unique : Inj (=) (=) uuid_supply.

Variables sales_silver_1 sales_silver_2 : list SalesRow.
Hypothesis rows_added : sales_silver_1 ⊆ sales_silver_2.

Variable n : nat.
Let first := star_schema uuid_supply sales_silver_1 n.
Let second := star_schema uuid_supply sales_silver_2 first.2.

Lemma dim_location_persists d :
  d ∈ StarSchema.dim_location first.1 →
  ∃ d', d' ∈ StarSchema.dim_location second.1
        ∧ DimLocation.natural_key d' = DimLocation.natural_key d.
Proof.
  unfold second, first. rewrite !star_schema_unfold. simpl. intros Hd.
  apply (list_elem_of_fmap_2 DimLocation.natural_key) in Hd.
  rewrite dim_location_tuples, elem_of_remove_dups in Hd.
  apply list_elem_of_fmap in Hd as (r & Hr & Hin).
  assert (DimLocation.natural_key d
            ∈ remove_dups (location_tuple <$> sales_silver_2)) as Hd2.
  { rewrite Hr. by apply elem_of_remove_dups, list_elem_of_fmap_2, rows_added. }
  erewrite <- dim_location_tuples in Hd2.
  apply list_elem_of_fmap in Hd2 as (d' & Hd' & Hin'). by exists d'.
Qed.

Lemma dim_product_persists p :
  p ∈ StarSchema.dim_product first.1 →
  ∃ p', p' ∈ StarSchema.dim_product second.1
        ∧ DimProduct.natural_key p' = DimProduct.natural_key p.
Proof.
  unfold second, first. rewrite !star_schema_unfold. simpl. intros Hp.
  apply (list_elem_of_fmap_2 DimProduct.natural_key) in Hp.
  rewrite dim_product_tuples, elem_of_remove_dups in Hp.
  apply list_elem_of_fmap in Hp as (r & Hr & Hin).
  assert (DimProduct.natural_key p
            ∈ remove_dups (product_tuple <$> sales_silver_2)) as Hp2.
  { rewrite Hr. by apply elem_of_remove_dups, list_elem_of_fmap_2, rows_added. }
  erewrite <- dim_product_tuples in Hp2.
  apply list_elem_of_fmap in Hp2 as (p' & Hp' & Hin'). by exists p'.
Qed.

Lemma dim_customer_persists c :
  c ∈ StarSchema.dim_customer first.1 →
  ∃ c', c' ∈ StarSchema.dim_customer second.1
        ∧ DimCustomer.customer_name c' = DimCustomer.customer_name c
        ∧ DimCustomer.email c' = DimCustomer.email c.
Proof.
  unfold second, first. rewrite !star_schema_unfold. simpl.
  intros (s & l & Hs & Hl & Hon & Hname & Hmail & _)%elem_of_dim_customer.
  apply customer_location_on_spec in Hon as [_ Hpresent].
  set (n2 := (dim_product uuid_supply sales_silver_1 _).2).
  assert (location_tuple s
            ∈ remove_dups (location_tuple <$> sales_silver_2)) as Hd2.
  { by apply elem_of_remove_dups, list_elem_of_fmap_2, rows_added. }
  rewrite <- (dim_location_tuples uuid_supply sales_silver_2 n2) in Hd2.
  apply list_elem_of_fmap in Hd2 as (l' & Hl' & Hin').
  destruct (dim_customer_complete uuid_supply s l' sales_silver_2
              (dim_location uuid_supply sales_silver_2 n2).1
              (dim_location uuid_supply sales_silver_2 n2).2)
    as (c' & Hc' & Hname' & Hmail' & _).
  - by apply rows_added.
  - done.
  - by apply customer_location_on_spec.
  - exists c'. by rewrite Hname, Hmail.
Qed.

(** No key of the second refresh is a key of the first. *)
Lemma keys_redrawn :
  (∀ d d', d ∈ StarSchema.dim_location first.1 →
           d' ∈ StarSchema.dim_location second.1 →
           DimLocation.location_key d' ≠ DimLocation.location_key d)
  ∧ (∀ c c', c ∈ StarSchema.dim_customer first.1 →
             c' ∈ StarSchema.dim_customer second.1 →
             DimCustomer.customer_key c' ≠ DimCustomer.customer_key c)
  ∧ (∀ p p', p ∈ StarSchema.dim_product first.1 →
             p' ∈ StarSchema.dim_product second.1 →
             DimProduct.product_key p' ≠ DimProduct.product_key p).
Proof.
  destruct (star_schema_draws uuid_supply sales_silver_1 n) as (Hl1 & Hc1 & Hp1).
  destruct (star_schema_draws uuid_supply sales_silver_2 first.2)
    as (Hl2 & Hc2 & Hp2).
  fold first in Hl1, Hc1, Hp1. fold second in Hl2, Hc2, Hp2.
  split; [|split].
  - intros d d' (i & Hi & ->)%Hl1 (j & Hj & ->)%Hl2 Heq%uuid_unique. lia.
  - intros c c' (i & Hi & ->)%Hc1 (j & Hj & ->)%Hc2 Heq%uuid_unique. lia.
  - intros p p' (i & Hi & ->)%Hp1 (j & Hj & ->)%Hp2 Heq%uuid_unique. lia.
Qed.
End Reruns.

(** C2, as the queries behave. When a refresh is followed by a second one
    over a silver table that holds every row of the first, each dimension
    tuple of the first refresh is there again after the second (a
    Dim_Location or Dim_Product tuple, a Dim_Customer customer_name and
    email), but under a key drawn anew: as [uuid()] never returns an
    identifier twice, no key of the second refresh equals a key of the
    first. *)
Theorem surrogate_keys_redrawn_on_rerun :
  ∀ (uuid_supply : nat → Uuid) (sales_silver_1 sales_silver_2 : list SalesRow)
    (n : nat),
    Inj (=) (=) uuid_supply →
    sales_silver_1 ⊆ sales_silver_2 →
    let first := star_schema uuid_supply sales_silver_1 n in
    let second := star_schema uuid_supply sales_silver_2 first.2 in
    (∀ d, d ∈ StarSchema.dim_location first.1 →
       (∃ d', d' ∈ StarSchema.dim_location second.1
              ∧ DimLocation.natural_key d' = DimLocation.natural_key d)
       ∧ ∀ d', d' ∈ StarSchema.dim_location second.1 →
               DimLocation.location_key d' ≠ DimLocation.location_key d)
    ∧ (∀ c, c ∈ StarSchema.dim_customer first.1 →
       (∃ c', c' ∈ StarSchema.dim_customer second.1
              ∧ DimCustomer.customer_name c' = DimCustomer.customer_name c
              ∧ DimCustomer.email c' = DimCustomer.email c)
       ∧ ∀ c', c' ∈ StarSchema.dim_customer second.1 →
               DimCustomer.customer_key c' ≠ DimCustomer.customer_key c)
    ∧ (∀ p, p ∈ StarSchema.dim_product first.1 →
       (∃ p', p' ∈ StarSchema.dim_product second.1
              ∧ DimProduct.natural_key p' = DimProduct.natural_key p)
       ∧ ∀ p', p' ∈ StarSchema.dim_product second.1 →
               DimProduct.product_key p' ≠ DimProduct.product_key p).
Proof.
  intros supply s1 s2 n Hinj Hsub first second.
  destruct (keys_redrawn supply Hinj s1 s2 n) as (Hl & Hc & Hp).
  split; [|split].
  - intros d Hd. split; [by apply dim_location_persists|].
    intros d' Hd'. by apply Hl.
  - intros c Hc1. split; [by apply dim_customer_persists|].
    intros c' Hc'. by apply Hc.
  - intros p Hp1. split; [by apply dim_product_persists|].
    intros p' Hp'. by apply Hp.
Qed.

Lemma surrogate_keys_redrawn_on_rerun_witness :
  let s1 := [electronics_sale "T-1" "ann" "1 Main St" 2] in
  let s2 := s1 ++ [electronics_sale "T-2" "ann" "1 Main St" 1] in
  let first := star_schema Z.of_nat s1 0%nat in
  let second := star_schema Z.of_nat s2 first.2 in
  ∃ c, c ∈ StarSchema.dim_customer first.1
       ∧ (∃ c', c' ∈ StarSchema.dim_customer second.1
                ∧ DimCustomer.customer_name c' = DimCustomer.customer_name c
                ∧ DimCustomer.email c' = DimCustomer.email c)
       ∧ ∀ c', c' ∈ StarSchema.dim_customer second.1 →
               DimCustomer.customer_key c' ≠ DimCustomer.customer_key c.
Proof.
  intros s1 s2 first second.
  assert (Inj (=) (=) Z.of_nat) as Hinj by (intros i j Hij; lia).
  assert (s1 ⊆ s2) as Hsub by (intros r Hr; apply elem_of_app; by left).
  exists (DimCustomer.mk 1 0 (Some "ann") (Some "ann@example.com")).
  assert (DimCustomer.mk 1 0 (Some "ann") (Some "ann@example.com")
            ∈ StarSchema.dim_customer first.1) as Hc
    by (vm_compute; apply list_elem_of_here).
  split; [done|].
  exact (proj1 (proj2 (surrogate_keys_redrawn_on_rerun Z.of_nat s1 s2 0%nat
                         Hinj Hsub)) _ Hc).
Defined.

(** C2, refuted as stated: one customer, one more transaction of hers in
    the second refresh, and her customer_key is not the one she had. *)
Lemma customer_key_changes_on_rerun :
  let s1 := [electronics_sale "T-1" "ann" "1 Main St" 2] in
  let s2 := s1 ++ [electronics_sale "T-2" "ann" "1 Main St" 1] in
  let first := star_schema Z.of_nat s1 0%nat in
  let second := star_schema Z.of_nat s2 first.2 in
  StarSchema.dim_customer first.1
  = [DimCustomer.mk 1 0 (Some "ann") (Some "ann@example.com")]
  ∧ StarSchema.dim_customer second.1
    = [DimCustomer.mk 4 3 (Some "ann") (Some "ann@example.com")]
  ∧ ¬ (∀ c c', c ∈ StarSchema.dim_customer first.1 →
               c' ∈ StarSchema.dim_customer second.1 →
               DimCustomer.customer_name c' = DimCustomer.customer_name c →
               DimCustomer.email c' = DimCustomer.email c →
               DimCustomer.customer_key c' = DimCustomer.customer_key c).
Proof.
  intros s1 s2 first second.
  assert (StarSchema.dim_customer first.1
          = [DimCustomer.mk 1 0 (Some "ann") (Some "ann@example.com")])
    as H1 by (vm_compute; reflexivity).
  assert (StarSchema.dim_customer second.1
          = [DimCustomer.mk 4 3 (Some "ann") (Some "ann@example.com")])
    as H2 by (vm_compute; reflexivity).
  split; [done|]. split; [done|].
  intros Hsame. rewrite H1, H2 in Hsame.
  specialize (Hsame _ _ (list_elem_of_here _ _) (list_elem_of_here _ _)
                eq_refl eq_refl).
  discriminate Hsame.
Qed.

(** C1, where the code departs from it. Two valid transactions delivered
    to two addresses of one city, state and zip code: Dim_Location has a
    row per address, fact_sales joins it on city, state and zip_code
    only, so each transaction meets both rows and is there twice. *)
Theorem fact_sales_repeats_transactions :
  let silver := sales_silver
                  [electronics_sale "T-1" "ann" "1 Main St" 2;
                   electronics_sale "T-2" "bob" "2 Main St" 1] in
  let star := (star_schema Z.of_nat silver 0%nat).1 in
  length silver = 2%nat
  ∧ length (StarSchema.dim_location star) = 2%nat
  ∧ length (StarSchema.fact_sales star) = 4%nat
  ∧ length (filter (λ f, FactSales.transaction_id f = Some "T-1")
              (StarSchema.fact_sales star)) = 2%nat
  ∧ length (filter (λ l, fact_location_on
                           (electronics_sale "T-1" "ann" "1 Main St" 2) l)
              (StarSchema.dim_location star)) = 2%nat.
Proof. vm_compute. done. Qed.

(** * Further properties *)

(** ** Silver layer, batch by batch *)

(** X1. Cleansing a bronze table that arrived in two batches is cleansing
    each batch, in order; cleansing an already cleansed table changes
    nothing. *)
Theorem sales_silver_batches :
  ∀ batch_1 batch_2 : list SalesRow,
    sales_silver (batch_1 ++ batch_2)
    = sales_silver batch_1 ++ sales_silver batch_2
    ∧ sales_silver (sales_silver batch_1) = sales_silver batch_1.
Proof.
  intros a b. split.
  - unfold sales_silver. apply filter_app.
  - apply filter_all. by intros r [Hr _]%elem_of_sales_silver.
Qed.

(** X2. The rows that pass the expectation and the rows that fail it add
    up to the bronze rows, and nothing is dropped exactly when no bronze
    row has a NULL transaction_id or product_id. *)
Theorem sales_silver_accounting :
  ∀ sales_bronze : list SalesRow,
    (length (sales_silver sales_bronze)
     + length (filter (λ r, transaction_id r = None ∨ product_id r = None)
                 sales_bronze)
     = length sales_bronze)%nat
    ∧ (sales_silver sales_bronze = sales_bronze
       ↔ ∀ r, r ∈ sales_bronze →
              transaction_id r ≠ None ∧ product_id r ≠ None).
Proof.
  intros bronze. split.
  - unfold sales_silver.
    induction bronze as [|r rows IH]; [done|].
    rewrite !filter_cons.
    destruct (decide (valid_transaction r)) as [Hv|Hv].
    + rewrite decide_False; [simpl; lia|].
      apply valid_transaction_spec in Hv as [? ?]. by intros [?|?].
    + rewrite decide_True; [simpl; lia|].
      destruct (transaction_id r) as [t|] eqn:Ht; [|by left].
      destruct (product_id r) as [p|] eqn:Hp; [|by right].
      exfalso. apply Hv, valid_transaction_spec. by rewrite Ht, Hp.
  - split.
    + intros Heq r Hr. rewrite <- Heq in Hr.
      apply elem_of_sales_silver in Hr as [Hr _].
      by apply valid_transaction_spec.
    + intros Hall. apply filter_all. intros r Hr.
      by apply valid_transaction_spec, Hall.
Qed.

(** ** Gold layer: one row per group *)

Lemma daily_sales_gold_keys sales_silver :
  (λ g, (DailySales.sale_date g, DailySales.category g))
    <$> daily_sales_gold sales_silver
  = remove_dups (daily_key <$> sales_silver).
Proof.
  unfold daily_sales_gold. rewrite <- list_fmap_compose.
  rewrite <- group_by_keys. apply list_fmap_ext. by intros _ [[d c] rows] _.
Qed.

(** X3. daily_sales_gold has one row for each (sale_date, category) of the
    silver rows, NULLs included, and no two rows for the same pair. *)
Theorem daily_sales_gold_one_row_per_group :
  ∀ sales_silver : list SalesRow,
    let keys := (λ g, (DailySales.sale_date g, DailySales.category g))
                  <$> daily_sales_gold sales_silver in
    NoDup keys
    ∧ ∀ d c, (d, c) ∈ keys
             ↔ ∃ r, r ∈ sales_silver
                    ∧ date (transaction_date r) = d ∧ category r = c.
Proof.
  intros silver keys. unfold keys. rewrite daily_sales_gold_keys. split.
  - apply NoDup_remove_dups.
  - intros d c. rewrite elem_of_remove_dups, list_elem_of_fmap. split.
    + intros (r & [= -> ->] & Hr). by exists r.
    + intros (r & Hr & <- & <-). by exists r.
Qed.

(** X4. Where total_amount, quantity and discount hold whole numbers
    whose absolute values add up to at most 2^53 (so that SUM is exact,
    whichever numeric type the column has), the revenue, the items sold
    and the discounts of daily_sales_gold add up to those of the silver
    table. *)
Theorem daily_sales_gold_whole_amounts_reconcile :
  ∀ sales_silver : list SalesRow,
    adds_exactly (total_amount <$> sales_silver) →
    adds_exactly (quantity <$> sales_silver) →
    adds_exactly (discount <$> sales_silver) →
    let gold := daily_sales_gold sales_silver in
    sql_sum (DailySales.total_revenue <$> gold)
    = sql_sum (total_amount <$> sales_silver)
    ∧ sql_sum (DailySales.total_items_sold <$> gold)
      = sql_sum (quantity <$> sales_silver)
    ∧ sql_sum (DailySales.total_discounts <$> gold)
      = sql_sum (discount <$> sales_silver).
Proof.
  intros rows _ _ _ gold. unfold gold. split; [|split].
  - rewrite (daily_sales_gold_groups rows _ total_amount) by done.
    apply sql_sum_groups.
  - rewrite (daily_sales_gold_groups rows _ quantity) by done.
    apply sql_sum_groups.
  - rewrite (daily_sales_gold_groups rows _ discount) by done.
    apply sql_sum_groups.
Qed.

Lemma daily_sales_gold_whole_amounts_reconcile_witness :
  let silver := [electronics_sale "T-1" "ann" "1 Main St" 2;
                 electronics_sale "T-2" "bob" "2 Main St" 1] in
  sql_sum (DailySales.total_revenue <$> daily_sales_gold silver) = Some 150.
Proof.
  intros silver.
  assert (adds_exactly (total_amount <$> silver)) as H1 by (by vm_compute).
  assert (adds_exactly (quantity <$> silver)) as H2 by (by vm_compute).
  assert (adds_exactly (discount <$> silver)) as H3 by (by vm_compute).
  exact (proj1 (daily_sales_gold_whole_amounts_reconcile silver H1 H2 H3)).
Defined.

(** ** Gold layer: customer_metrics_gold *)

Lemma Timestamp_leb_spec a b :
  Timestamp_leb a b = true ↔
  let '(mkTimestamp (mkDate y1 m1 d1) s1) := a in
  let '(mkTimestamp (mkDate y2 m2 d2) s2) := b in
  y1 < y2 ∨ (y1 = y2 ∧ (m1 < m2 ∨ (m1 = m2 ∧ (d1 < d2 ∨ (d1 = d2 ∧ s1 ≤ s2))))).
Proof.
  destruct a as [[y1 m1 d1] s1], b as [[y2 m2 d2] s2].
  unfold Timestamp_leb, Timestamp_compare. simpl.
  destruct (Z.compare_spec y1 y2), (Z.compare_spec m1 m2),
    (Z.compare_spec d1 d2), (Z.compare_spec s1 s2);
    split; intros ?; try done; try lia.
Qed.

Lemma Timestamp_leb_refl a : Timestamp_leb a a = true.
Proof. apply Timestamp_leb_spec. destruct a as [[y m d] s]. lia. Qed.

Lemma Timestamp_leb_trans a b c :
  Timestamp_leb a b = true → Timestamp_leb b c = true →
  Timestamp_leb a c = true.
Proof.
  rewrite !Timestamp_leb_spec.
  destruct a as [[y1 m1 d1] s1], b as [[y2 m2 d2] s2], c as [[y3 m3 d3] s3].
  lia.
Qed.

Lemma Timestamp_leb_total a b :
  Timestamp_leb a b = false → Timestamp_leb b a = true.
Proof.
  intros Hab. apply Timestamp_leb_spec.
  apply not_true_iff_false in Hab. rewrite Timestamp_leb_spec in Hab.
  destruct a as [[y1 m1 d1] s1], b as [[y2 m2 d2] s2]. lia.
Qed.

(** The latest of a list is one of its items and bounds them all. *)
Lemma foldr_later_spec x xs :
  foldr later x xs ∈ x :: xs
  ∧ ∀ y, y ∈ x :: xs → Timestamp_leb y (foldr later x xs) = true.
Proof.
  induction xs as [|z xs [IHin IHle]]; simpl.
  - split; [apply list_elem_of_here|].
    intros y ->%list_elem_of_singleton. apply Timestamp_leb_refl.
  - unfold later at 1 3.
    destruct (Timestamp_leb z (foldr later x xs)) eqn:Hz.
    + split.
      * apply elem_of_cons in IHin as [->|Hin];
          [apply list_elem_of_here | by do 2 apply list_elem_of_further].
      * intros y [->|[->|Hy]%elem_of_cons]%elem_of_cons.
        -- apply IHle, list_elem_of_here.
        -- done.
        -- by apply IHle, list_elem_of_further.
    + split; [apply list_elem_of_further, list_elem_of_here|].
      apply Timestamp_leb_total in Hz.
      intros y [->|[->|Hy]%elem_of_cons]%elem_of_cons.
      * eapply Timestamp_leb_trans; [|done]. apply IHle, list_elem_of_here.
      * apply Timestamp_leb_refl.
      * eapply Timestamp_leb_trans; [|done].
        by apply IHle, list_elem_of_further.
Qed.

Lemma foldr_earlier_spec x xs :
  foldr earlier x xs ∈ x :: xs
  ∧ ∀ y, y ∈ x :: xs → Timestamp_leb (foldr earlier x xs) y = true.
Proof.
  induction xs as [|z xs [IHin IHle]]; simpl.
  - split; [apply list_elem_of_here|].
    intros y ->%list_elem_of_singleton. apply Timestamp_leb_refl.
  - unfold earlier at 1 3.
    destruct (Timestamp_leb z (foldr earlier x xs)) eqn:Hz.
    + split; [apply list_elem_of_further, list_elem_of_here|].
      intros y [->|[->|Hy]%elem_of_cons]%elem_of_cons.
      * eapply Timestamp_leb_trans; [done|]. apply IHle, list_elem_of_here.
      * apply Timestamp_leb_refl.
      * eapply Timestamp_leb_trans; [done|].
        by apply IHle, list_elem_of_further.
    + split.
      * apply elem_of_cons in IHin as [->|Hin];
          [apply list_elem_of_here | by do 2 apply list_elem_of_further].
      * apply Timestamp_leb_total in Hz.
        intros y [->|[->|Hy]%elem_of_cons]%elem_of_cons.
        -- apply IHle, list_elem_of_here.
        -- done.
        -- by apply IHle, list_elem_of_further.
Qed.

Lemma sql_max_spec col :
  match sql_max col with
  | Some t => Some t ∈ col ∧ ∀ y, Some y ∈ col → Timestamp_leb y t = true
  | None => ∀ y, Some y ∉ col
  end.
Proof.
  unfold sql_max. destruct (non_null col) as [|x xs] eqn:E.
  - by apply non_null_nil.
  - destruct (foldr_later_spec x xs) as [Hin Hle]. rewrite <- E in Hin, Hle.
    split; [by apply elem_of_non_null|].
    intros y Hy. by apply Hle, elem_of_non_null.
Qed.

Lemma sql_min_spec col :
  match sql_min col with
  | Some t => Some t ∈ col ∧ ∀ y, Some y ∈ col → Timestamp_leb t y = true
  | None => ∀ y, Some y ∉ col
  end.
Proof.
  unfold sql_min. destruct (non_null col) as [|x xs] eqn:E.
  - by apply non_null_nil.
  - destruct (foldr_earlier_spec x xs) as [Hin Hle]. rewrite <- E in Hin, Hle.
    split; [by apply elem_of_non_null|].
    intros y Hy. by apply Hle, elem_of_non_null.
Qed.

Lemma elem_of_customer_metrics_gold g sales_silver :
  g ∈ customer_metrics_gold sales_silver ↔
  ∃ k, g = customer_metrics_row (k, group_rows customer_name k sales_silver)
       ∧ ∃ r, r ∈ sales_silver ∧ customer_name r = k.
Proof.
  unfold customer_metrics_gold. rewrite list_elem_of_fmap. split.
  - intros ([k rows] & -> & (Hrows & Hr)%elem_of_group_by).
    simpl in *. subst rows. by exists k.
  - intros (k & -> & Hr). eexists. split; [done|].
    by apply elem_of_group_by.
Qed.

Lemma customer_metrics_gold_groups sales_silver
    (col : CustomerMetrics.t → option Z) (f : SalesRow → option Z) :
  (∀ g, col (customer_metrics_row g) = sql_sum (f <$> g.2)) →
  col <$> customer_metrics_gold sales_silver
  = (λ k, sql_sum (f <$> group_rows customer_name k sales_silver))
      <$> remove_dups (customer_name <$> sales_silver).
Proof.
  intros Hcol. unfold customer_metrics_gold, group_by.
  rewrite <- !list_fmap_compose. apply list_fmap_ext.
  intros _ k _. simpl. by rewrite Hcol.
Qed.

(** X5. customer_metrics_gold has one row for each customer_name of the
    silver rows (one for the rows without a name, if any) and no two rows
    for the same name. *)
Theorem customer_metrics_gold_one_row_per_customer :
  ∀ sales_silver : list SalesRow,
    let names := CustomerMetrics.customer_name
                   <$> customer_metrics_gold sales_silver in
    NoDup names ∧ ∀ name, name ∈ names ↔ name ∈ customer_name <$> sales_silver.
Proof.
  intros silver names.
  assert (names = remove_dups (customer_name <$> silver)) as ->.
  { unfold names, customer_metrics_gold. rewrite <- list_fmap_compose.
    rewrite <- group_by_keys. apply list_fmap_ext. by intros _ [k rows] _. }
  split; [apply NoDup_remove_dups|]. intros name. apply elem_of_remove_dups.
Qed.

(** X6. Where total_amount, quantity and discount hold whole numbers
    whose absolute values add up to at most 2^53 (so that SUM is exact,
    whichever numeric type the column has), what the customers spent,
    bought and saved adds up to the total_amount, quantity and discount
    of the silver table. *)
Theorem customer_metrics_gold_whole_amounts_reconcile :
  ∀ sales_silver : list SalesRow,
    adds_exactly (total_amount <$> sales_silver) →
    adds_exactly (quantity <$> sales_silver) →
    adds_exactly (discount <$> sales_silver) →
    let gold := customer_metrics_gold sales_silver in
    sql_sum (CustomerMetrics.total_spent <$> gold)
    = sql_sum (total_amount <$> sales_silver)
    ∧ sql_sum (CustomerMetrics.total_items_bought <$> gold)
      = sql_sum (quantity <$> sales_silver)
    ∧ sql_sum (CustomerMetrics.total_savings <$> gold)
      = sql_sum (discount <$> sales_silver).
Proof.
  intros rows _ _ _ gold. unfold gold. split; [|split].
  - rewrite (customer_metrics_gold_groups rows _ total_amount) by done.
    apply sql_sum_groups.
  - rewrite (customer_metrics_gold_groups rows _ quantity) by done.
    apply sql_sum_groups.
  - rewrite (customer_metrics_gold_groups rows _ discount) by done.
    apply sql_sum_groups.
Qed.

Lemma customer_metrics_gold_whole_amounts_reconcile_witness :
  let silver := [electronics_sale "T-1" "ann" "1 Main St" 2;
                 electronics_sale "T-2" "bob" "2 Main St" 1] in
  sql_sum (CustomerMetrics.total_spent <$> customer_metrics_gold silver)
  = Some 150.
Proof.
  intros silver.
  assert (adds_exactly (total_amount <$> silver)) as H1 by (by vm_compute).
  assert (adds_exactly (quantity <$> silver)) as H2 by (by vm_compute).
  assert (adds_exactly (discount <$> silver)) as H3 by (by vm_compute).
  exact (proj1 (customer_metrics_gold_whole_amounts_reconcile silver H1 H2 H3)).
Defined.

(** X7. In a row of customer_metrics_gold, first_purchase_date and
    last_purchase_date are transaction dates of silver rows of that
    customer, and every dated silver row of the customer lies between
    them; both are NULL only when no row of the customer has a date. *)
Theorem customer_metrics_gold_date_range :
  ∀ (sales_silver : list SalesRow) (g : CustomerMetrics.t),
    g ∈ customer_metrics_gold sales_silver →
    (∀ t, CustomerMetrics.first_purchase_date g = Some t →
          ∃ r, r ∈ sales_silver
               ∧ customer_name r = CustomerMetrics.customer_name g
               ∧ transaction_date r = Some t)
    ∧ (∀ t, CustomerMetrics.last_purchase_date g = Some t →
            ∃ r, r ∈ sales_silver
                 ∧ customer_name r = CustomerMetrics.customer_name g
                 ∧ transaction_date r = Some t)
    ∧ (∀ r t, r ∈ sales_silver →
              customer_name r = CustomerMetrics.customer_name g →
              transaction_date r = Some t →
              ∃ first last,
                CustomerMetrics.first_purchase_date g = Some first
                ∧ CustomerMetrics.last_purchase_date g = Some last
                ∧ Timestamp_leb first t = true
                ∧ Timestamp_leb t last = true).
Proof.
  intros silver g (k & -> & _)%elem_of_customer_metrics_gold. simpl.
  pose proof (sql_min_spec
                (transaction_date <$> group_rows customer_name k silver))
    as Hmin.
  pose proof (sql_max_spec
                (transaction_date <$> group_rows customer_name k silver))
    as Hmax.
  split; [|split].
  - intros t Ht. rewrite Ht in Hmin. destruct Hmin as [Hin _].
    apply list_elem_of_fmap in Hin as (r & Hr & [Hk Hin]%elem_of_group_rows).
    by exists r.
  - intros t Ht. rewrite Ht in Hmax. destruct Hmax as [Hin _].
    apply list_elem_of_fmap in Hin as (r & Hr & [Hk Hin]%elem_of_group_rows).
    by exists r.
  - intros r t Hr Hk Ht.
    assert (Some t ∈ transaction_date <$> group_rows customer_name k silver)
      as Hin.
    { rewrite <- Ht. by apply list_elem_of_fmap_2, elem_of_group_rows. }
    destruct (sql_min _) as [first|]; [|by apply Hmin in Hin].
    destruct (sql_max _) as [last|]; [|by apply Hmax in Hin].
    exists first, last. repeat split; [by apply Hmin | by apply Hmax].
Qed.

Lemma customer_metrics_gold_date_range_witness :
  ∃ g, g ∈ customer_metrics_gold [electronics_sale "T-1" "ann" "1 Main St" 2]
       ∧ ∃ r, r ∈ [electronics_sale "T-1" "ann" "1 Main St" 2]
              ∧ customer_name r = CustomerMetrics.customer_name g
              ∧ transaction_date r = Some new_year_2024.
Proof.
  eexists. split; [vm_compute; apply list_elem_of_here|].
  eapply (proj1 (proj2 (customer_metrics_gold_date_range
                          [electronics_sale "T-1" "ann" "1 Main St" 2] _ _))).
  vm_compute. reflexivity.
  Unshelve. vm_compute. apply list_elem_of_here.
Defined.

(** X8. Over the silver table of any bronze table, every row of
    customer_metrics_gold counts at least one purchase. *)
Theorem customer_metrics_gold_has_purchases :
  ∀ (sales_bronze : list SalesRow) (g : CustomerMetrics.t),
    g ∈ customer_metrics_gold (sales_silver sales_bronze) →
    1 ≤ CustomerMetrics.total_purchases g.
Proof.
  intros bronze g (k & -> & r & Hr & Hk)%elem_of_customer_metrics_gold.
  pose proof Hr as [[Hid _]%valid_transaction_spec _]%elem_of_sales_silver.
  destruct (transaction_id r) as [t|] eqn:Ht; [|done].
  simpl. apply (count_distinct_positive _ t). rewrite <- Ht.
  by apply list_elem_of_fmap_2, elem_of_group_rows.
Qed.

Lemma customer_metrics_gold_has_purchases_witness :
  ∃ g, g ∈ customer_metrics_gold
             (sales_silver [electronics_sale "T-1" "ann" "1 Main St" 2])
       ∧ 1 ≤ CustomerMetrics.total_purchases g.
Proof.
  eexists. split; [vm_compute; apply list_elem_of_here|].
  apply (customer_metrics_gold_has_purchases
           [electronics_sale "T-1" "ann" "1 Main St" 2]).
  vm_compute. apply list_elem_of_here.
Defined.

(** ** Dimensions and facts *)

Lemma elem_of_dim_date d sales_silver :
  d ∈ dim_date sales_silver ↔
  ∃ r ts, r ∈ sales_silver ∧ transaction_date r = Some ts
          ∧ d = DimDate.mk (Some (ts_date ts)) (Some (d_year (ts_date ts)))
                  (Some (d_month (ts_date ts))) (Some (d_day (ts_date ts))).
Proof.
  unfold dim_date. rewrite elem_of_remove_dups, list_elem_of_fmap. split.
  - intros (r & -> & [Hts Hr]%list_elem_of_filter).
    destruct (transaction_date r) as [ts|] eqn:E; [|done].
    exists r, ts. unfold dim_date_row. by rewrite E.
  - intros (r & ts & Hr & Hts & ->). exists r. split.
    + unfold dim_date_row. by rewrite Hts.
    + apply list_elem_of_filter. by rewrite Hts.
Qed.

(** X9. Dim_Date is keyed by date_key: no two rows share one and none is
    NULL; year, month and day are those of the date_key; and the dates
    are those of the dated silver rows. *)
Theorem dim_date_keyed_by_date :
  ∀ sales_silver : list SalesRow,
    let dd := dim_date sales_silver in
    NoDup (DimDate.date_key <$> dd)
    ∧ (∀ d, d ∈ dd →
         ∃ day, DimDate.date_key d = Some day
                ∧ DimDate.year d = Some (d_year day)
                ∧ DimDate.month d = Some (d_month day)
                ∧ DimDate.day d = Some (d_day day))
    ∧ (∀ day, Some day ∈ DimDate.date_key <$> dd
              ↔ ∃ r, r ∈ sales_silver
                     ∧ date (transaction_date r) = Some day).
Proof.
  intros silver dd. unfold dd. split; [|split].
  - apply NoDup_fmap_2_strong; [|apply NoDup_remove_dups].
    intros x y (r1 & t1 & _ & _ & ->)%elem_of_dim_date
      (r2 & t2 & _ & _ & ->)%elem_of_dim_date. simpl.
    by intros [= ->].
  - intros d (r & ts & _ & _ & ->)%elem_of_dim_date. by exists (ts_date ts).
  - intros day. rewrite list_elem_of_fmap. split.
    + intros (d & Hd & (r & ts & Hr & Hts & ->)%elem_of_dim_date).
      simpl in Hd. exists r. split; [done|]. by rewrite Hts, Hd.
    + intros (r & Hr & Hday).
      destruct (transaction_date r) as [ts|] eqn:Hts; [|done].
      simpl in Hday. injection Hday as <-.
      eexists. split; [|apply elem_of_dim_date; by exists r, ts]. done.
Qed.

Lemma elem_of_fact_sales f silver dc dp dl :
  f ∈ fact_sales silver dc dp dl ↔
  ∃ s c p l, f = fact_select (s, c, p, l)
             ∧ s ∈ silver ∧ c ∈ dc ∧ p ∈ dp ∧ l ∈ dl
             ∧ transaction_id s ≠ None
             ∧ fact_customer_on s c = true
             ∧ fact_product_on s p = true
             ∧ fact_location_on s l = true.
Proof.
  unfold fact_sales, fact_join. rewrite list_elem_of_fmap. split.
  - intros ([[[s c] p] l] & -> & [Hid Hj]%list_elem_of_filter).
    simpl in Hid.
    apply elem_of_join in Hj as (Hj & Hl & Hlon).
    apply elem_of_join in Hj as (Hj & Hp & Hpon).
    apply elem_of_join in Hj as (Hs & Hc & Hcon).
    exists s, c, p, l. repeat split; try done.
    by destruct (transaction_id s).
  - intros (s & c & p & l & -> & Hs & Hc & Hp & Hl & Hid & Hcon & Hpon & Hlon).
    exists (s, c, p, l). split; [done|].
    apply list_elem_of_filter. split.
    + simpl. by destruct (transaction_id s).
    + apply elem_of_join. split; [|done].
      apply elem_of_join. split; [|done].
      by apply elem_of_join.
Qed.

(** X10. The date_key of a fact row is NULL (a sale without a
    transaction_date) or a date_key of Dim_Date. *)
Theorem fact_sales_date_key_resolves :
  ∀ (sales_silver : list SalesRow) (dim_customer : list DimCustomer.t)
    (dim_product : list DimProduct.t) (dim_location : list DimLocation.t)
    (f : FactSales.t),
    f ∈ fact_sales sales_silver dim_customer dim_product dim_location →
    FactSales.date_key f = None
    ∨ FactSales.date_key f ∈ DimDate.date_key <$> dim_date sales_silver.
Proof.
  intros silver dc dp dl f
    (s & c & p & l & -> & Hs & _)%elem_of_fact_sales. simpl.
  destruct (date (transaction_date s)) as [day|] eqn:Hday; [right|by left].
  apply dim_date_keyed_by_date. by exists s.
Qed.

Lemma fact_sales_date_key_resolves_witness :
  let silver := [electronics_sale "T-1" "ann" "1 Main St" 2] in
  let star := (star_schema Z.of_nat silver 0%nat).1 in
  ∃ f, f ∈ StarSchema.fact_sales star
       ∧ (FactSales.date_key f = None
          ∨ FactSales.date_key f ∈ DimDate.date_key <$> dim_date silver).
Proof.
  intros silver star. eexists. split; [vm_compute; apply list_elem_of_here|].
  apply (fact_sales_date_key_resolves silver (StarSchema.dim_customer star)
           (StarSchema.dim_product star) (StarSchema.dim_location star)).
  vm_compute. apply list_elem_of_here.
Defined.

(** X11. Dim_Product has one row for each distinct (product_id,
    product_name, category, price) of the silver rows and no other, and,
    as [uuid()] does not repeat itself, no two rows share a product_key. *)
Theorem dim_product_one_row_per_tuple :
  ∀ (uuid_supply : nat → Uuid) (sales_silver : list SalesRow) (n : nat),
    Inj (=) (=) uuid_supply →
    let dp := (dim_product uuid_supply sales_silver n).1 in
    (∀ t, t ∈ DimProduct.natural_key <$> dp
          ↔ t ∈ product_tuple <$> sales_silver)
    ∧ NoDup (DimProduct.natural_key <$> dp)
    ∧ NoDup (DimProduct.product_key <$> dp).
Proof.
  intros supply silver n Hinj dp. split; [|split].
  - intros t. unfold dp. by rewrite dim_product_tuples, elem_of_remove_dups.
  - unfold dp. rewrite dim_product_tuples. apply NoDup_remove_dups.
  - unfold dp, dim_product. rewrite select_with_uuid_draws. simpl.
    apply keyed_NoDup; [apply dim_product_row_key | done].
Qed.

Lemma dim_product_one_row_per_tuple_witness :
  let dp := (dim_product Z.of_nat
               [electronics_sale "T-1" "ann" "1 Main St" 2;
                electronics_sale "T-2" "bob" "2 Main St" 1] 0%nat).1 in
  length dp = 1%nat
  ∧ NoDup (DimProduct.natural_key <$> dp)
  ∧ NoDup (DimProduct.product_key <$> dp).
Proof.
  split; [reflexivity|].
  eapply proj2, (dim_product_one_row_per_tuple Z.of_nat).
  intros i j Hij. lia.
Defined.

(** X12. Dim_Customer has exactly one row for each (customer_name, email,
    location_key) that the join of the silver rows with Dim_Location
    yields: every pair of a silver row and a Dim_Location row that the
    join condition accepts has its row, no two rows carry the same
    triple, and every row comes from such a pair, that is from a silver
    row whose four location columns are present (a customer whose rows
    all lack a location column has no row).  As [uuid()] does not repeat
    itself, no two rows share a customer_key. *)
Theorem dim_customer_rows :
  ∀ (uuid_supply : nat → Uuid) (sales_silver : list SalesRow)
    (dim_location : list DimLocation.t) (n : nat),
    Inj (=) (=) uuid_supply →
    let dc := (dim_customer uuid_supply sales_silver dim_location n).1 in
    NoDup (DimCustomer.customer_key <$> dc)
    ∧ NoDup ((λ c, (DimCustomer.customer_name c, DimCustomer.email c,
                    DimCustomer.location_key c)) <$> dc)
    ∧ (∀ s l, s ∈ sales_silver → l ∈ dim_location →
              customer_location_on s l = true →
              ∃ c, c ∈ dc
                   ∧ DimCustomer.customer_name c = customer_name s
                   ∧ DimCustomer.email c = email s
                   ∧ DimCustomer.location_key c = DimLocation.location_key l)
    ∧ ∀ c, c ∈ dc →
        ∃ s l, s ∈ sales_silver ∧ l ∈ dim_location
               ∧ customer_location_on s l = true
               ∧ DimCustomer.customer_name c = customer_name s
               ∧ DimCustomer.email c = email s
               ∧ DimCustomer.location_key c = DimLocation.location_key l
               ∧ DimLocation.natural_key l = location_tuple s
               ∧ ∃ a ct st z,
                   location_tuple s = (Some a, Some ct, Some st, Some z).
Proof.
  intros supply silver dl n Hinj dc. split; [|split; [|split]].
  - unfold dc, dim_customer. rewrite select_with_uuid_draws. simpl.
    apply keyed_NoDup; [apply dim_customer_row_key | done].
  - unfold dc. rewrite dim_customer_tuples. apply NoDup_remove_dups.
  - intros s l Hs Hl Hon. by apply dim_customer_complete.
  - intros c (s & l & Hs & Hl & Hon & Hname & Hmail & Hkey)%elem_of_dim_customer.
    pose proof Hon as [Htuple Hpresent]%customer_location_on_spec.
    exists s, l. done.
Qed.

Lemma dim_customer_rows_witness :
  let silver := [electronics_sale "T-1" "ann" "1 Main St" 2;
                 electronics_sale "T-2" "bob" "2 Main St" 1] in
  let dl := dim_location Z.of_nat silver 0%nat in
  let dc := (dim_customer Z.of_nat silver dl.1 dl.2).1 in
  length dc = 2%nat ∧ NoDup (DimCustomer.customer_key <$> dc).
Proof.
  intros silver dl dc. split; [reflexivity|].
  assert (Inj (=) (=) Z.of_nat) as Hinj by (intros i j Hij; lia).
  exact (proj1 (dim_customer_rows Z.of_nat silver dl.1 dl.2 Hinj)).
Defined.

(** X13. After a refresh, the three surrogate keys of every fact row are
    keys of rows of Dim_Customer, Dim_Product and Dim_Location. *)
Theorem fact_sales_keys_resolve :
  ∀ (uuid_supply : nat → Uuid) (sales_silver : list SalesRow) (n : nat)
    (f : FactSales.t),
    let star := (star_schema uuid_supply sales_silver n).1 in
    f ∈ StarSchema.fact_sales star →
    FactSales.customer_key f
      ∈ DimCustomer.customer_key <$> StarSchema.dim_customer star
    ∧ FactSales.product_key f
        ∈ DimProduct.product_key <$> StarSchema.dim_product star
    ∧ FactSales.location_key f
        ∈ DimLocation.location_key <$> StarSchema.dim_location star.
Proof.
  intros supply silver n f star. unfold star.
  rewrite star_schema_unfold. simpl.
  intros (s & c & p & l & -> & _ & Hc & Hp & Hl & _)%elem_of_fact_sales.
  simpl. repeat split; by apply list_elem_of_fmap_2.
Qed.

Lemma fact_sales_keys_resolve_witness :
  let star := (star_schema Z.of_nat
                 [electronics_sale "T-1" "ann" "1 Main St" 2] 0%nat).1 in
  ∃ f, f ∈ StarSchema.fact_sales star
       ∧ FactSales.customer_key f
           ∈ DimCustomer.customer_key <$> StarSchema.dim_customer star.
Proof.
  intros star. eexists. split; [vm_compute; apply list_elem_of_here|].
  apply (fact_sales_keys_resolve Z.of_nat
           [electronics_sale "T-1" "ann" "1 Main St" 2] 0%nat).
  vm_compute. apply list_elem_of_here.
Defined.

(** X14. Every fact row carries the transaction_id, the date and the
    measures of one silver row, and that row has a customer_name, an
    email, a product_id, a city, a state and a zip_code: a sale that
    lacks one of them is not in fact_sales, whatever the dimensions
    hold. *)
Theorem fact_sales_rows_come_from_silver :
  ∀ (sales_silver : list SalesRow) (dim_customer : list DimCustomer.t)
    (dim_product : list DimProduct.t) (dim_location : list DimLocation.t)
    (f : FactSales.t),
    f ∈ fact_sales sales_silver dim_customer dim_product dim_location →
    ∃ s, s ∈ sales_silver
         ∧ FactSales.transaction_id f = transaction_id s
         ∧ FactSales.date_key f = date (transaction_date s)
         ∧ FactSales.quantity f = quantity s
         ∧ FactSales.price f = price s
         ∧ FactSales.discount f = discount s
         ∧ FactSales.total_amount f = total_amount s
         ∧ FactSales.payment_method f = payment_method s
         ∧ transaction_id s ≠ None
         ∧ customer_name s ≠ None ∧ email s ≠ None
         ∧ product_id s ≠ None
         ∧ city s ≠ None ∧ state s ≠ None ∧ zip_code s ≠ None.
Proof.
  intros silver dc dp dl f
    (s & c & p & l & -> & Hs & _ & _ & _ & Hid & Hcon & Hpon & Hlon)
      %elem_of_fact_sales.
  unfold fact_customer_on, fact_product_on, fact_location_on in *.
  rewrite !andb_true_iff, !sql_eq_true in *.
  destruct Hcon as [(? & Hname & _) (? & Hmail & _)].
  destruct Hpon as (? & Hpid & _).
  destruct Hlon as [[(? & Hcity & _) (? & Hstate & _)] (? & Hzip & _)].
  exists s. simpl. repeat split; congruence.
Qed.

Lemma fact_sales_rows_come_from_silver_witness :
  let silver := [electronics_sale "T-1" "ann" "1 Main St" 2] in
  let star := (star_schema Z.of_nat silver 0%nat).1 in
  ∃ f s, f ∈ StarSchema.fact_sales star ∧ s ∈ silver
         ∧ FactSales.transaction_id f = transaction_id s.
Proof.
  intros silver star.
  destruct (fact_sales_rows_come_from_silver silver
              (StarSchema.dim_customer star) (StarSchema.dim_product star)
              (StarSchema.dim_location star)
              (FactSales.mk (Some "T-1") 1 2 0 (Some (mkDate 2024 1 1))
                 (Some 2) (Some 50) (Some 0) (Some 100) (Some "card")))
    as (s & Hs & Hid & _).
  { vm_compute. apply list_elem_of_here. }
  eexists _, s. split; [|done]. vm_compute. apply list_elem_of_here.
Defined.

(** X15. After a refresh, a silver row that has a transaction_id, a
    customer_name, an email, a product_id and the four location columns
    is in fact_sales: some fact row carries its transaction_id, date and
    measures. *)
Theorem fact_sales_keeps_complete_rows :
  ∀ (uuid_supply : nat → Uuid) (sales_silver : list SalesRow) (n : nat)
    (s : SalesRow),
    s ∈ sales_silver →
    transaction_id s ≠ None → customer_name s ≠ None → email s ≠ None →
    product_id s ≠ None → delivery_address s ≠ None →
    city s ≠ None → state s ≠ None → zip_code s ≠ None →
    ∃ f, f ∈ StarSchema.fact_sales (star_schema uuid_supply sales_silver n).1
         ∧ FactSales.transaction_id f = transaction_id s
         ∧ FactSales.date_key f = date (transaction_date s)
         ∧ FactSales.quantity f = quantity s
         ∧ FactSales.price f = price s
         ∧ FactSales.discount f = discount s
         ∧ FactSales.total_amount f = total_amount s
         ∧ FactSales.payment_method f = payment_method s.
Proof.
  intros supply silver n s Hs Hid Hname Hmail Hpid Haddr Hcity Hstate Hzip.
  rewrite star_schema_unfold. simpl.
  set (dl := dim_location supply silver n).
  set (dc := dim_customer supply silver dl.1 dl.2).
  set (dp := dim_product supply silver dc.2).
  (* the row of Dim_Location for the location of [s] *)
  assert (∃ l, l ∈ dl.1 ∧ DimLocation.natural_key l = location_tuple s)
    as (l & Hl & Hltuple).
  { assert (location_tuple s ∈ DimLocation.natural_key <$> dl.1) as Hin.
    { unfold dl. rewrite dim_location_tuples.
      by apply elem_of_remove_dups, list_elem_of_fmap_2. }
    apply list_elem_of_fmap in Hin as (l & Hl & Hin). by exists l. }
  assert (∃ a ct st z, location_tuple s = (Some a, Some ct, Some st, Some z))
    as Hpresent.
  { unfold location_tuple.
    destruct (delivery_address s) as [a|], (city s) as [ct|],
      (state s) as [st|], (zip_code s) as [z|]; try done.
    by exists a, ct, st, z. }
  (* the row of Dim_Customer that this join yields *)
  destruct (dim_customer_complete supply s l silver dl.1 dl.2 Hs Hl)
    as (c & Hc & Hcname & Hcmail & _).
  { by apply customer_location_on_spec. }
  (* the row of Dim_Product for the product of [s] *)
  assert (∃ p, p ∈ dp.1 ∧ DimProduct.natural_key p = product_tuple s)
    as (p & Hp & Hptuple).
  { assert (product_tuple s ∈ DimProduct.natural_key <$> dp.1) as Hin.
    { unfold dp. rewrite dim_product_tuples.
      by apply elem_of_remove_dups, list_elem_of_fmap_2. }
    apply list_elem_of_fmap in Hin as (p & Hp' & Hin). by exists p. }
  exists (fact_select (s, c, p, l)). split; [|done].
  apply elem_of_fact_sales. exists s, c, p, l.
  injection Hltuple as Hla Hlc Hls Hlz. injection Hptuple as Hpi _ _ _.
  repeat split; try done.
  - unfold fact_customer_on. rewrite Hcname, Hcmail.
    apply andb_true_iff. split; apply sql_eq_true.
    + destruct (customer_name s) as [v|]; [by exists v|done].
    + destruct (email s) as [v|]; [by exists v|done].
  - unfold fact_product_on. rewrite Hpi. apply sql_eq_true.
    destruct (product_id s) as [v|]; [by exists v|done].
  - unfold fact_location_on. rewrite Hlc, Hls, Hlz.
    rewrite !andb_true_iff. repeat split; apply sql_eq_true.
    + destruct (city s) as [v|]; [by exists v|done].
    + destruct (state s) as [v|]; [by exists v|done].
    + destruct (zip_code s) as [v|]; [by exists v|done].
Qed.

Lemma fact_sales_keeps_complete_rows_witness :
  let s := electronics_sale "T-2" "bob" "2 Main St" 1 in
  let silver := [electronics_sale "T-1" "ann" "1 Main St" 2; s] in
  ∃ f, f ∈ StarSchema.fact_sales (star_schema Z.of_nat silver 0%nat).1
       ∧ FactSales.transaction_id f = Some "T-2".
Proof.
  intros s silver.
  destruct (fact_sales_keeps_complete_rows Z.of_nat silver 0%nat s)
    as (f & Hf & Hid & _); try done.
  { apply list_elem_of_further, list_elem_of_here. }
  by exists f.
Defined.

(** ** When the fact table has one row per sale *)

Lemma NoDup_fmap_inj_on {A B} (f : A → B) (l : list A) x y :
  NoDup (f <$> l) → x ∈ l → y ∈ l → f x = f y → x = y.
Proof.
  induction l as [|z l IH]; [by intros _ ?%elem_of_nil|].
  rewrite fmap_cons, NoDup_cons.
  intros [Hz Hnd] [->|Hx]%elem_of_cons [->|Hy]%elem_of_cons Hxy; try done.
  - exfalso. apply Hz. rewrite Hxy. by apply list_elem_of_fmap_2.
  - exfalso. apply Hz. rewrite <- Hxy. by apply list_elem_of_fmap_2.
  - by apply IH.
Qed.

Section JoinUnique.
Context {A B : Type} (on : A → B → bool).

Lemma join_cons x a b :
  join on (x :: a) b
  = (y ← b; if on x y then [(x, y)] else []) ++ join on a b.
Proof. done. Qed.

Lemma join_row_no_match x b :
  (∀ y, y ∈ b → on x y = false) →
  (y ← b; if on x y then [(x, y)] else []) = [].
Proof.
  induction b as [|y b IH]; intros Hno; [done|]. simpl.
  rewrite (Hno y) by apply list_elem_of_here. simpl.
  apply IH. intros y' Hy'. by apply Hno, list_elem_of_further.
Qed.

Lemma join_row_one_match x y b :
  NoDup b → y ∈ b → on x y = true →
  (∀ y', y' ∈ b → on x y' = true → y' = y) →
  (y ← b; if on x y then [(x, y)] else []) = [(x, y)].
Proof.
  induction b as [|z b IH]; [by intros _ ?%elem_of_nil|].
  intros [Hz Hnd]%NoDup_cons Hy Hon Huniq. simpl.
  destruct (on x z) eqn:Hxz.
  - assert (z = y) as -> by (apply Huniq; [apply list_elem_of_here|done]).
    rewrite join_row_no_match; [done|].
    intros y' Hy'. destruct (on x y') eqn:Hxy'; [|done].
    exfalso. apply Hz.
    by rewrite <- (Huniq y' (list_elem_of_further _ _ _ Hy') Hxy').
  - apply elem_of_cons in Hy as [->|Hy]; [congruence|].
    simpl. apply IH; [done..|].
    intros y' Hy'. by apply Huniq, list_elem_of_further.
Qed.

(** A join in which every left row meets one right row keeps the left
    rows as they are, one for one. *)
Lemma join_one_match a b :
  NoDup b →
  (∀ x, x ∈ a → ∃ y, y ∈ b ∧ on x y = true
                     ∧ ∀ y', y' ∈ b → on x y' = true → y' = y) →
  (join on a b).*1 = a.
Proof.
  intros Hnd. induction a as [|x a IH]; intros Hone; [done|].
  rewrite join_cons, fmap_app.
  destruct (Hone x (list_elem_of_here _ _)) as (y & Hy & Hon & Huniq).
  rewrite (join_row_one_match x y b) by done. simpl. f_equal.
  apply IH. intros x' Hx'. by apply Hone, list_elem_of_further.
Qed.
End JoinUnique.

Section OneRowPerSale.
Variable uuid_supply : nat → Uuid.
Variable sales_silver : list SalesRow.
Variable n : nat.

Hypothesis complete : ∀ s, s ∈ sales_silver →
  transaction_id s ≠ None ∧ customer_name s ≠ None ∧ email s ≠ None
  ∧ product_id s ≠ None ∧ delivery_address s ≠ None
  ∧ city s ≠ None ∧ state s ≠ None ∧ zip_code s ≠ None.
Hypothesis one_address_per_place : ∀ s s', s ∈ sales_silver → s' ∈ sales_silver →
  city s = city s' → state s = state s' → zip_code s = zip_code s' →
  delivery_address s = delivery_address s'.
Hypothesis one_description_per_product : ∀ s s',
  s ∈ sales_silver → s' ∈ sales_silver →
  product_id s = product_id s' → product_tuple s = product_tuple s'.
Hypothesis one_location_per_customer : ∀ s s',
  s ∈ sales_silver → s' ∈ sales_silver →
  customer_name s = customer_name s' → email s = email s' →
  location_tuple s = location_tuple s'.

Let dl := dim_location uuid_supply sales_silver n.
Let dc := dim_customer uuid_supply sales_silver dl.1 dl.2.
Let dp := dim_product uuid_supply sales_silver dc.2.

Lemma location_present s :
  s ∈ sales_silver →
  ∃ a ct st z, location_tuple s = (Some a, Some ct, Some st, Some z).
Proof.
  intros (_ & _ & _ & _ & ? & ? & ? & ?)%complete. unfold location_tuple.
  destruct (delivery_address s) as [a|], (city s) as [ct|],
    (state s) as [st|], (zip_code s) as [z|]; try done.
  by exists a, ct, st, z.
Qed.

Lemma location_row_of s :
  s ∈ sales_silver →
  ∃ l, l ∈ dl.1 ∧ DimLocation.natural_key l = location_tuple s.
Proof.
  intros Hs.
  assert (location_tuple s ∈ DimLocation.natural_key <$> dl.1) as Hin.
  { unfold dl. rewrite dim_location_tuples.
    by apply elem_of_remove_dups, list_elem_of_fmap_2. }
  apply list_elem_of_fmap in Hin as (l & Hl & Hin). by exists l.
Qed.

Lemma location_row_from l :
  l ∈ dl.1 →
  ∃ s, s ∈ sales_silver ∧ DimLocation.natural_key l = location_tuple s.
Proof.
  intros Hl%(list_elem_of_fmap_2 DimLocation.natural_key).
  unfold dl in Hl. rewrite dim_location_tuples, elem_of_remove_dups in Hl.
  apply list_elem_of_fmap in Hl as (s & Hs & Hin). by exists s.
Qed.

Lemma NoDup_location_tuples : NoDup (DimLocation.natural_key <$> dl.1).
Proof. unfold dl. rewrite dim_location_tuples. apply NoDup_remove_dups. Qed.

Lemma NoDup_product_tuples : NoDup (DimProduct.natural_key <$> dp.1).
Proof. unfold dp. rewrite dim_product_tuples. apply NoDup_remove_dups. Qed.

Lemma NoDup_customer_tuples :
  NoDup ((λ c, (DimCustomer.customer_name c, DimCustomer.email c,
                DimCustomer.location_key c)) <$> dc.1).
Proof. unfold dc. rewrite dim_customer_tuples. apply NoDup_remove_dups. Qed.

Lemma one_location_row s :
  s ∈ sales_silver →
  ∃ l, l ∈ dl.1 ∧ fact_location_on s l = true
       ∧ ∀ l', l' ∈ dl.1 → fact_location_on s l' = true → l' = l.
Proof.
  intros Hs. destruct (location_row_of s Hs) as (l & Hl & Htuple).
  destruct (location_present s Hs) as (a & ct & st & z & Hpresent).
  exists l. split; [done|]. split.
  - rewrite Hpresent in Htuple.
    injection Htuple as _ Hc Hst Hz. injection Hpresent as _ Hc' Hst' Hz'.
    unfold fact_location_on. rewrite Hc, Hst, Hz, Hc', Hst', Hz'.
    rewrite !andb_true_iff. repeat split; apply sql_eq_true; by eexists.
  - intros l' Hl' Hon.
    destruct (location_row_from l' Hl') as (s' & Hs' & Htuple').
    apply (NoDup_fmap_inj_on DimLocation.natural_key dl.1);
      [apply NoDup_location_tuples|done..|].
    rewrite Htuple, Htuple'.
    unfold fact_location_on in Hon.
    rewrite !andb_true_iff, !sql_eq_true in Hon.
    destruct Hon as [[(v1 & Hc & Hc') (v2 & Hst & Hst')] (v3 & Hz & Hz')].
    injection Htuple' as Ha'' Hc'' Hst'' Hz''.
    assert (delivery_address s' = delivery_address s) as Haddr.
    { apply one_address_per_place; [done..| | |]; congruence. }
    unfold location_tuple. congruence.
Qed.

Lemma one_product_row s :
  s ∈ sales_silver →
  ∃ p, p ∈ dp.1 ∧ fact_product_on s p = true
       ∧ ∀ p', p' ∈ dp.1 → fact_product_on s p' = true → p' = p.
Proof.
  intros Hs.
  assert (product_tuple s ∈ DimProduct.natural_key <$> dp.1) as Hin.
  { unfold dp. rewrite dim_product_tuples.
    by apply elem_of_remove_dups, list_elem_of_fmap_2. }
  apply list_elem_of_fmap in Hin as (p & Htuple & Hp).
  destruct (complete s Hs) as (_ & _ & _ & Hpid & _).
  exists p. split; [done|]. split.
  - injection Htuple as Hid _ _ _. unfold fact_product_on. rewrite <- Hid.
    apply sql_eq_true. destruct (product_id s) as [v|]; [by exists v|done].
  - intros p' Hp' Hon.
    apply (NoDup_fmap_inj_on DimProduct.natural_key dp.1);
      [apply NoDup_product_tuples|done..|].
    rewrite <- Htuple.
    pose proof Hp' as Hin%(list_elem_of_fmap_2 DimProduct.natural_key).
    unfold dp in Hin. rewrite dim_product_tuples, elem_of_remove_dups in Hin.
    apply list_elem_of_fmap in Hin as (s' & Htuple' & Hs').
    rewrite Htuple'. apply one_description_per_product; [done..|].
    apply sql_eq_true in Hon as (v & Hv & Hv').
    injection Htuple' as Hid' _ _ _. congruence.
Qed.

Lemma one_customer_row s :
  s ∈ sales_silver →
  ∃ c, c ∈ dc.1 ∧ fact_customer_on s c = true
       ∧ ∀ c', c' ∈ dc.1 → fact_customer_on s c' = true → c' = c.
Proof.
  intros Hs. destruct (location_row_of s Hs) as (l & Hl & Htuple).
  destruct (complete s Hs) as (_ & Hname & Hmail & _).
  destruct (dim_customer_complete uuid_supply s l sales_silver dl.1 dl.2 Hs Hl)
    as (c & Hc & Hcname & Hcmail & Hckey).
  { apply customer_location_on_spec. split; [done|]. by apply location_present. }
  fold dc in Hc. exists c. split; [done|]. split.
  - unfold fact_customer_on. rewrite Hcname, Hcmail.
    apply andb_true_iff. split; apply sql_eq_true.
    + destruct (customer_name s) as [v|]; [by exists v|done].
    + destruct (email s) as [v|]; [by exists v|done].
  - intros c' Hc' Hon.
    apply (NoDup_fmap_inj_on
             (λ c, (DimCustomer.customer_name c, DimCustomer.email c,
                    DimCustomer.location_key c)) dc.1);
      [apply NoDup_customer_tuples|done..|].
    pose proof Hc' as
      (s' & l' & Hs' & Hl' & Hon' & Hname' & Hmail' & Hkey')%elem_of_dim_customer.
    apply customer_location_on_spec in Hon' as [Htuple' _].
    unfold fact_customer_on in Hon.
    rewrite andb_true_iff, !sql_eq_true in Hon.
    destruct Hon as [(v1 & Hn & Hn') (v2 & Hm & Hm')].
    assert (l' = l) as ->.
    { apply (NoDup_fmap_inj_on DimLocation.natural_key dl.1);
        [apply NoDup_location_tuples|done..|].
      rewrite Htuple, Htuple'.
      apply one_location_per_customer; [done..| |]; congruence. }
    congruence.
Qed.

Lemma fact_join_one_row_per_sale :
  (fact_join sales_silver dc.1 dp.1 dl.1).*1.*1.*1 = sales_silver.
Proof.
  unfold fact_join.
  assert (NoDup dl.1) as Hdl by apply (NoDup_fmap_1 _ _ NoDup_location_tuples).
  assert (NoDup dp.1) as Hdp by apply (NoDup_fmap_1 _ _ NoDup_product_tuples).
  assert (NoDup dc.1) as Hdc by apply (NoDup_fmap_1 _ _ NoDup_customer_tuples).
  assert ((join fact_customer_on sales_silver dc.1).*1 = sales_silver) as H1.
  { apply join_one_match; [done|]. apply one_customer_row. }
  set (j1 := join fact_customer_on sales_silver dc.1) in *.
  assert ((join (λ j p, fact_product_on j.1 p) j1 dp.1).*1 = j1) as H2.
  { apply join_one_match; [done|]. intros [s c] Hj. simpl.
    apply one_product_row. by apply elem_of_join in Hj as [? _]. }
  set (j2 := join (λ j p, fact_product_on j.1 p) j1 dp.1) in *.
  rewrite join_one_match; [by rewrite H2, H1|done|].
  intros [[s c] p] Hj. simpl. apply one_location_row.
  apply elem_of_join in Hj as [Hj _].
  by apply elem_of_join in Hj as [? _].
Qed.
End OneRowPerSale.

(** X16. Where the silver rows are complete (transaction_id, customer_name,
    email, product_id and the four location columns present) and
    consistent (one delivery_address per city, state and zip_code, one
    name, category and price per product_id, one location per customer),
    a refresh gives fact_sales one row per silver row: its
    transaction_id and total_amount columns are those of the silver table,
    row for row. *)
Theorem fact_sales_one_row_per_sale :
  ∀ (uuid_supply : nat → Uuid) (sales_silver : list SalesRow) (n : nat),
    (∀ s, s ∈ sales_silver →
       transaction_id s ≠ None ∧ customer_name s ≠ None ∧ email s ≠ None
       ∧ product_id s ≠ None ∧ delivery_address s ≠ None
       ∧ city s ≠ None ∧ state s ≠ None ∧ zip_code s ≠ None) →
    (∀ s s', s ∈ sales_silver → s' ∈ sales_silver →
       city s = city s' → state s = state s' → zip_code s = zip_code s' →
       delivery_address s = delivery_address s') →
    (∀ s s', s ∈ sales_silver → s' ∈ sales_silver →
       product_id s = product_id s' → product_tuple s = product_tuple s') →
    (∀ s s', s ∈ sales_silver → s' ∈ sales_silver →
       customer_name s = customer_name s' → email s = email s' →
       location_tuple s = location_tuple s') →
    let fact := StarSchema.fact_sales
                  (star_schema uuid_supply sales_silver n).1 in
    FactSales.transaction_id <$> fact = transaction_id <$> sales_silver
    ∧ FactSales.total_amount <$> fact = total_amount <$> sales_silver
    ∧ length fact = length sales_silver.
Proof.
  intros supply silver n Hcomplete Hplace Hproduct Hcustomer fact.
  pose proof (fact_join_one_row_per_sale supply silver n
                Hcomplete Hplace Hproduct Hcustomer) as Hjoin.
  unfold fact. rewrite star_schema_unfold. simpl. unfold fact_sales.
  rewrite filter_all.
  2:{ intros j Hj%elem_of_fact_join.
      destruct (Hcomplete _ Hj) as [Hid _].
      by destruct (transaction_id j.1.1.1). }
  set (joined := fact_join _ _ _ _) in *. clearbody joined.
  rewrite <- Hjoin. rewrite <- !list_fmap_compose, !length_fmap.
  repeat split; apply list_fmap_ext; by intros _ [[[s c] p] l] _.
Qed.

Ltac pick_rows :=
  repeat match goal with
    | H : _ ∈ _ :: _ |- _ => apply elem_of_cons in H as [->|H]
    | H : _ ∈ [] |- _ => by apply elem_of_nil in H
    end.

Lemma fact_sales_one_row_per_sale_witness :
  let silver := [electronics_sale "T-1" "ann" "1 Main St" 2;
                 electronics_sale "T-2" "ann" "1 Main St" 1] in
  FactSales.transaction_id
    <$> StarSchema.fact_sales (star_schema Z.of_nat silver 0%nat).1
  = [Some "T-1"; Some "T-2"].
Proof.
  intros silver.
  refine (proj1 (fact_sales_one_row_per_sale Z.of_nat silver 0%nat _ _ _ _)).
  - intros s Hs. unfold silver in Hs. pick_rows; repeat split; done.
  - intros s s' Hs Hs' _ _ _. unfold silver in Hs, Hs'. by pick_rows.
  - intros s s' Hs Hs' _. unfold silver in Hs, Hs'. by pick_rows.
  - intros s s' Hs Hs' _ _. unfold silver in Hs, Hs'. by pick_rows.
Defined.

(** ** What in the roll-ups does not depend on the order of the rows *)

Lemma non_null_Permutation {A} (col col' : list (option A)) :
  col ≡ₚ col' → non_null col ≡ₚ non_null col'.
Proof. intros Hp. unfold non_null. by rewrite Hp. Qed.

Lemma remove_dups_Permutation {A} `{EqDecision A} (l l' : list A) :
  l ≡ₚ l' → remove_dups l ≡ₚ remove_dups l'.
Proof.
  intros Hp. apply NoDup_Permutation; [apply NoDup_remove_dups..|].
  intros x. by rewrite !elem_of_remove_dups, Hp.
Qed.

Lemma count_distinct_Permutation {A} `{EqDecision A}
    (col col' : list (option A)) :
  col ≡ₚ col' → count_distinct col = count_distinct col'.
Proof.
  intros Hp%non_null_Permutation%remove_dups_Permutation.
  unfold count_distinct. by rewrite Hp.
Qed.

Lemma Timestamp_leb_antisym a b :
  Timestamp_leb a b = true → Timestamp_leb b a = true → a = b.
Proof.
  rewrite !Timestamp_leb_spec.
  destruct a as [[y1 m1 d1] s1], b as [[y2 m2 d2] s2].
  intros Hab Hba.
  assert (y1 = y2 ∧ m1 = m2 ∧ d1 = d2 ∧ s1 = s2) as (-> & -> & -> & ->) by lia.
  done.
Qed.

Lemma sql_max_Permutation col col' : col ≡ₚ col' → sql_max col = sql_max col'.
Proof.
  intros Hp. pose proof (sql_max_spec col) as H1.
  pose proof (sql_max_spec col') as H2.
  destruct (sql_max col) as [t|], (sql_max col') as [t'|]; try done.
  - destruct H1 as [Hin1 Hle1], H2 as [Hin2 Hle2]. f_equal.
    apply Timestamp_leb_antisym.
    + apply Hle2. by rewrite <- Hp.
    + apply Hle1. by rewrite Hp.
  - destruct H1 as [Hin _]. rewrite Hp in Hin. by apply H2 in Hin.
  - destruct H2 as [Hin _]. rewrite <- Hp in Hin. by apply H1 in Hin.
Qed.

Lemma sql_min_Permutation col col' : col ≡ₚ col' → sql_min col = sql_min col'.
Proof.
  intros Hp. pose proof (sql_min_spec col) as H1.
  pose proof (sql_min_spec col') as H2.
  destruct (sql_min col) as [t|], (sql_min col') as [t'|]; try done.
  - destruct H1 as [Hin1 Hle1], H2 as [Hin2 Hle2]. f_equal.
    apply Timestamp_leb_antisym.
    + apply Hle1. by rewrite Hp.
    + apply Hle2. by rewrite <- Hp.
  - destruct H1 as [Hin _]. rewrite Hp in Hin. by apply H2 in Hin.
  - destruct H2 as [Hin _]. rewrite <- Hp in Hin. by apply H1 in Hin.
Qed.

Section GroupByOrder.
Context {A K R : Type} `{EqDecision K} (key : A → K).
Context (row : K * list A → R).

Lemma group_rows_Permutation k rows rows' :
  rows ≡ₚ rows' → group_rows key k rows ≡ₚ group_rows key k rows'.
Proof. intros Hp. unfold group_rows. by rewrite Hp. Qed.

(** A roll-up whose rows depend on a group only up to the order of its
    rows gives the same rows for any order of its input. *)
Lemma group_by_Permutation rows rows' :
  (∀ k g g', g ≡ₚ g' → row (k, g) = row (k, g')) →
  rows ≡ₚ rows' →
  row <$> group_by key rows ≡ₚ row <$> group_by key rows'.
Proof.
  intros Hrow Hp. unfold group_by. rewrite <- !list_fmap_compose.
  assert (remove_dups (key <$> rows) ≡ₚ remove_dups (key <$> rows')) as <-.
  { apply remove_dups_Permutation. by rewrite Hp. }
  erewrite list_fmap_ext; [done|]. intros _ k _. simpl.
  by apply Hrow, group_rows_Permutation.
Qed.
End GroupByOrder.

(** X17. The groups, the distinct counts and the date range of the gold
    tables do not depend on the order of the silver rows: for any other
    order, daily_sales_gold has the same sale_date, category,
    total_transactions and unique_customers, and customer_metrics_gold
    the same customer_name, total_purchases, unique_categories_bought,
    last_purchase_date and first_purchase_date. *)
Theorem gold_tables_ignore_row_order :
  ∀ sales_silver sales_silver' : list SalesRow,
    sales_silver ≡ₚ sales_silver' →
    (λ g, (DailySales.sale_date g, DailySales.category g,
           DailySales.total_transactions g, DailySales.unique_customers g))
      <$> daily_sales_gold sales_silver
    ≡ₚ (λ g, (DailySales.sale_date g, DailySales.category g,
              DailySales.total_transactions g,
              DailySales.unique_customers g))
         <$> daily_sales_gold sales_silver'
    ∧ (λ g, (CustomerMetrics.customer_name g,
             CustomerMetrics.total_purchases g,
             CustomerMetrics.unique_categories_bought g,
             CustomerMetrics.last_purchase_date g,
             CustomerMetrics.first_purchase_date g))
        <$> customer_metrics_gold sales_silver
      ≡ₚ (λ g, (CustomerMetrics.customer_name g,
                CustomerMetrics.total_purchases g,
                CustomerMetrics.unique_categories_bought g,
                CustomerMetrics.last_purchase_date g,
                CustomerMetrics.first_purchase_date g))
           <$> customer_metrics_gold sales_silver'.
Proof.
  intros rows rows' Hp. unfold daily_sales_gold, customer_metrics_gold.
  rewrite <- !list_fmap_compose. split.
  - apply group_by_Permutation; [|done]. intros k g g' Hg. simpl.
    rewrite (count_distinct_Permutation (transaction_id <$> g)
               (transaction_id <$> g')) by (by rewrite Hg).
    by rewrite (count_distinct_Permutation (customer_name <$> g)
                  (customer_name <$> g')) by (by rewrite Hg).
  - apply group_by_Permutation; [|done]. intros k g g' Hg. simpl.
    rewrite (count_distinct_Permutation (transaction_id <$> g)
               (transaction_id <$> g')) by (by rewrite Hg).
    rewrite (count_distinct_Permutation (category <$> g) (category <$> g'))
      by (by rewrite Hg).
    rewrite (sql_max_Permutation (transaction_date <$> g)
               (transaction_date <$> g')) by (by rewrite Hg).
    by rewrite (sql_min_Permutation (transaction_date <$> g)
                  (transaction_date <$> g')) by (by rewrite Hg).
Qed.

Lemma gold_tables_ignore_row_order_witness :
  (λ g, (DailySales.sale_date g, DailySales.category g,
         DailySales.total_transactions g, DailySales.unique_customers g))
    <$> daily_sales_gold [sale "T-1" "Electronics" 30; sale "T-2" "Books" 20]
  ≡ₚ (λ g, (DailySales.sale_date g, DailySales.category g,
            DailySales.total_transactions g, DailySales.unique_customers g))
       <$> daily_sales_gold [sale "T-2" "Books" 20;
                             sale "T-1" "Electronics" 30].
Proof.
  refine (proj1 (gold_tables_ignore_row_order _ _ _)).
  apply Permutation_swap.
Defined.

(** X18. Where every bronze row lacks a transaction_id or a product_id,
    as where there is no bronze row at all, the silver table, both gold
    tables and the five tables of the star schema are empty. *)
Theorem nothing_valid_nothing_downstream :
  ∀ (uuid_supply : nat → Uuid) (sales_bronze : list SalesRow) (n : nat),
    (∀ r, r ∈ sales_bronze → transaction_id r = None ∨ product_id r = None) →
    let silver := sales_silver sales_bronze in
    let star := (star_schema uuid_supply silver n).1 in
    silver = []
    ∧ daily_sales_gold silver = []
    ∧ customer_metrics_gold silver = []
    ∧ StarSchema.dim_location star = []
    ∧ StarSchema.dim_customer star = []
    ∧ StarSchema.dim_product star = []
    ∧ StarSchema.dim_date star = []
    ∧ StarSchema.fact_sales star = [].
Proof.
  intros supply bronze n Hinvalid silver star.
  assert (silver = []) as Hsilver.
  { apply elem_of_nil_inv. intros r [Hv Hr]%elem_of_sales_silver.
    apply valid_transaction_spec in Hv as [Hid Hpid].
    by destruct (Hinvalid r Hr). }
  unfold star. rewrite Hsilver. by vm_compute.
Qed.

Lemma nothing_valid_nothing_downstream_witness :
  let bronze := [mkSalesRow None (Some "P-1") None (Some "ann") None None
                   None None None None None None None (Some 100) None None] in
  sales_silver bronze = []
  ∧ daily_sales_gold (sales_silver bronze) = [].
Proof.
  intros bronze.
  destruct (nothing_valid_nothing_downstream Z.of_nat bronze 0%nat)
    as (Hsilver & Hgold & _); [|done].
  intros r Hr. unfold bronze in Hr. pick_rows. by left.
Defined.

(** ** How many fact rows a sale gets *)

Section JoinCount.
Context {A B : Type} (on : A → B → bool).

Lemma join_app a a' b : join on (a ++ a') b = join on a b ++ join on a' b.
Proof.
  induction a as [|x a IH]; [done|].
  rewrite <- app_comm_cons, !join_cons, IH. by rewrite app_assoc.
Qed.

Lemma join_row_length x b :
  length (y ← b; if on x y then [(x, y)] else [])
  = length (filter (λ y, on x y) b).
Proof.
  induction b as [|y b IH]; [done|].
  rewrite bind_cons, filter_cons, length_app, IH.
  by destruct (on x y).
Qed.

(** Left rows that all meet [m] right rows give [m] pairs each. *)
Lemma join_length_uniform a b m :
  (∀ x, x ∈ a → length (filter (λ y, on x y) b) = m) →
  length (join on a b) = (length a * m)%nat.
Proof.
  induction a as [|x a IH]; intros Hm; [done|].
  rewrite join_cons, length_app, join_row_length.
  rewrite (Hm x) by apply list_elem_of_here.
  rewrite IH by (intros; by apply Hm, list_elem_of_further). simpl. lia.
Qed.
End JoinCount.

Lemma fact_join_one_sale s dc dp dl :
  length (fact_join [s] dc dp dl)
  = (matches fact_customer_on s dc * matches fact_product_on s dp
     * matches fact_location_on s dl)%nat.
Proof.
  unfold fact_join.
  set (j1 := join fact_customer_on [s] dc).
  set (j2 := join (λ j p, fact_product_on j.1 p) j1 dp).
  assert (length j1 = matches fact_customer_on s dc) as H1.
  { unfold j1. rewrite (join_length_uniform _ _ _ (matches fact_customer_on s dc)).
    - simpl. lia.
    - by intros x ->%list_elem_of_singleton. }
  assert (∀ j, j ∈ j1 → j.1 = s) as Hj1.
  { intros [x c] (Hx%list_elem_of_singleton & _)%elem_of_join. done. }
  assert (length j2 = (length j1 * matches fact_product_on s dp)%nat) as H2.
  { unfold j2. apply join_length_uniform. intros j Hj.
    by rewrite (Hj1 j Hj). }
  assert (∀ j, j ∈ j2 → j.1.1 = s) as Hj2.
  { intros [j p] (Hj & _)%elem_of_join. simpl. by apply Hj1. }
  transitivity (length j2 * matches fact_location_on s dl)%nat.
  - apply join_length_uniform. intros j Hj. by rewrite (Hj2 j Hj).
  - by rewrite H2, H1.
Qed.

Lemma fact_join_app a b dc dp dl :
  fact_join (a ++ b) dc dp dl = fact_join a dc dp dl ++ fact_join b dc dp dl.
Proof. unfold fact_join. by rewrite !join_app. Qed.

Lemma fact_sales_where_redundant_length bronze dc dp dl :
  length (fact_sales (sales_silver bronze) dc dp dl)
  = length (fact_join (sales_silver bronze) dc dp dl).
Proof.
  unfold fact_sales. rewrite length_fmap, filter_all; [done|].
  intros j [[Hid _]%valid_transaction_spec _]%elem_of_fact_join%elem_of_sales_silver.
  by destruct (transaction_id j.1.1.1).
Qed.

(** X19. Over the silver table of any bronze table, each sale is in
    fact_sales once for every combination of a Dim_Customer row, a
    Dim_Product row and a Dim_Location row that its join conditions
    accept: the number of fact rows is the sum, over the silver rows, of
    the product of the three numbers of matching dimension rows. *)
Theorem fact_sales_row_count :
  ∀ (sales_bronze : list SalesRow) (dim_customer : list DimCustomer.t)
    (dim_product : list DimProduct.t) (dim_location : list DimLocation.t),
    length (fact_sales (sales_silver sales_bronze) dim_customer dim_product
              dim_location)
    = sum_list
        ((λ s, length (filter (λ c, fact_customer_on s c) dim_customer)
               * length (filter (λ p, fact_product_on s p) dim_product)
               * length (filter (λ l, fact_location_on s l) dim_location))%nat
           <$> sales_silver sales_bronze).
Proof.
  intros bronze dc dp dl.
  rewrite fact_sales_where_redundant_length.
  induction (sales_silver bronze) as [|s silver IH]; [done|].
  change (s :: silver) with ([s] ++ silver).
  rewrite fact_join_app, length_app, IH, fact_join_one_sale. done.
Qed.
